(** * v2ex_mirror: the incremental sync engine of [scripts/fetch/run.mjs]

    A shallow embedding of the fetch script: JSON values and the
    JavaScript coercions the script applies to them, the hot-pool merge,
    the refresh policy, the rate-limited retrying client and the
    per-run loop, followed by the properties of each.

    Conventions of the embedding.
    - Numbers.  The documents carry ids, reply counts and unix
      timestamps.  [JsNum] has the integers, both infinities and NaN;
      arithmetic on integers is exact, as binary64 arithmetic is for
      the magnitudes involved.
    - Objects are association lists read by first binding, arrays are
      lists.
    - What ECMAScript leaves to the host (string to number parsing,
      [Date.parse], the order [Array.prototype.sort] gives under an
      inconsistent comparator) is a field of the class [Engine]; every
      theorem holds for every engine.
    - [CONFIG] is read once from the environment; its numeric fields
      are integers.
    - Time is the clock [Date.now()] reads.  It stands still while
      synchronous code runs and moves at every [await] on a timer or on
      I/O; a timer resumes no earlier than it was asked to.
    - Everything outside the process (what each request and each write
      ends as, how long each suspension lasts) is an [Outside]; the
      script is a function of it, and every theorem holds for every
      one. *)

From stdpp Require Import base numbers list strings gmap pretty sorting.

Open Scope Z_scope.

(** ** JavaScript values *)

Module Js.

Inductive JsNum : Set :=
| NaN
| PInf
| NInf
| Num (z : Z).

#[global] Instance JsNum_eq_dec : EqDecision JsNum.
Proof. solve_decision. Defined.

#[local] Unset Elimination Schemes.
Inductive value : Type :=
| VUndef
| VNull
| VBool (b : bool)
| VNum (n : JsNum)
| VStr (s : string)
| VArr (xs : list value)
| VObj (props : list (string * value)).
#[local] Set Elimination Schemes.

(** Thrown values: every throw site of the script raises an [Error]
    object (or the runtime raises a [TypeError] / [SyntaxError]); the
    script only ever reads [error.message]. *)
Inductive JsError : Type :=
| Error (message : string)
| TypeError (message : string)
| SyntaxError (message : string).

Definition message (e : JsError) : string :=
  match e with
  | Error m | TypeError m | SyntaxError m => m
  end.

Inductive Result (A : Type) : Type :=
| Ok (a : A)
| Throw (e : JsError).
Arguments Ok {A} a.
Arguments Throw {A} e.

#[global] Instance Result_ret : MRet Result := fun A a => Ok a.
#[global] Instance Result_bind : MBind Result := fun A B f r =>
  match r with
  | Ok a => f a
  | Throw e => Throw e
  end.

(** *** Numeric operators on [JsNum] (IEEE special values kept) *)

Definition isFinite (n : JsNum) : bool :=
  match n with
  | Num _ => true
  | _ => false
  end.

Definition js_lt (a b : JsNum) : bool :=
  match a, b with
  | NaN, _ | _, NaN => false
  | Num x, Num y => x <? y
  | NInf, NInf => false
  | NInf, _ => true
  | _, PInf => match a with PInf => false | _ => true end
  | _, _ => false
  end.

Definition js_le (a b : JsNum) : bool :=
  match a, b with
  | NaN, _ | _, NaN => false
  | Num x, Num y => x <=? y
  | NInf, _ => true
  | _, PInf => true
  | _, _ => false
  end.

Definition js_gt (a b : JsNum) : bool := js_lt b a.
Definition js_ge (a b : JsNum) : bool := js_le b a.

(** [a === b] on numbers: NaN equals nothing. *)
Definition js_eq (a b : JsNum) : bool :=
  match a, b with
  | NaN, _ | _, NaN => false
  | _, _ => bool_decide (a = b)
  end.

Definition js_neq (a b : JsNum) : bool := negb (js_eq a b).

Definition js_neg (a : JsNum) : JsNum :=
  match a with
  | NaN => NaN
  | PInf => NInf
  | NInf => PInf
  | Num z => Num (- z)
  end.

Definition js_add (a b : JsNum) : JsNum :=
  match a, b with
  | NaN, _ | _, NaN => NaN
  | Num x, Num y => Num (x + y)
  | PInf, NInf | NInf, PInf => NaN
  | PInf, _ | _, PInf => PInf
  | NInf, _ | _, NInf => NInf
  end.

Definition js_sub (a b : JsNum) : JsNum := js_add a (js_neg b).

Definition js_mul (a b : JsNum) : JsNum :=
  match a, b with
  | NaN, _ | _, NaN => NaN
  | Num x, Num y => Num (x * y)
  | Num x, inf | inf, Num x =>
      if x =? 0 then NaN
      else if 0 <? x then inf else js_neg inf
  | PInf, PInf | NInf, NInf => PInf
  | PInf, NInf | NInf, PInf => NInf
  end.

(** *** Host-defined behaviour *)

Class Engine : Type := {
  (** [StringToNumber] of the ECMAScript grammar. *)
  StringToNumber : string -> JsNum;
  (** [Number(o)] for an array or object [o] (through [ToPrimitive]). *)
  ObjectToNumber : value -> JsNum;
  (** [Date.parse(v)]: the time value of the text of [v], or NaN. *)
  Date_parse : value -> JsNum;
  (** [new Date(t).toISOString()] *)
  Date_toISOString : Z -> string;
  (** [xs.sort(cmp)]: a rearrangement of [xs]. *)
  Array_sort : (value -> value -> JsNum) -> list value -> list value;
  Array_sort_Permutation :
    forall cmp xs, Permutation (Array_sort cmp xs) xs
}.

(** [Number(v)] *)
Definition Number {E : Engine} (v : value) : JsNum :=
  match v with
  | VUndef => NaN
  | VNull => Num 0
  | VBool b => if b then Num 1 else Num 0
  | VNum n => n
  | VStr s => StringToNumber s
  | VArr _ | VObj _ => ObjectToNumber v
  end.

(** [!!v] *)
Definition ToBoolean (v : value) : bool :=
  match v with
  | VUndef | VNull => false
  | VBool b => b
  | VNum NaN => false
  | VNum (Num z) => negb (z =? 0)
  | VNum _ => true
  | VStr s => negb (bool_decide (s = ""%string))
  | VArr _ | VObj _ => true
  end.

Definition nullish (v : value) : bool :=
  match v with
  | VUndef | VNull => true
  | _ => false
  end.

(** [a ?? b] *)
Definition coalesce (a b : value) : value := if nullish a then b else a.

Fixpoint assoc (k : string) (props : list (string * value)) : value :=
  match props with
  | [] => VUndef
  | (k', v) :: rest => if bool_decide (k = k') then v else assoc k rest
  end.

(** [v?.k]; also [v.k] where the script has made sure [v] is not
    nullish.  Arrays and strings answer [length]. *)
Definition prop (v : value) (k : string) : value :=
  match v with
  | VObj props => assoc k props
  | VArr xs =>
      if bool_decide (k = "length"%string) then VNum (Num (Z.of_nat (length xs)))
      else VUndef
  | VStr s =>
      if bool_decide (k = "length"%string)
      then VNum (Num (Z.of_nat (String.length s)))
      else VUndef
  | _ => VUndef
  end.

(** [v.k] where [v] may be nullish. *)
Definition member (v : value) (k : string) : Result value :=
  if nullish v then Throw (TypeError "Cannot read properties of null or undefined")
  else Ok (prop v k).

(** [`${n}`] *)
Definition Number_toString (n : JsNum) : string :=
  match n with
  | NaN => "NaN"
  | PInf => "Infinity"
  | NInf => "-Infinity"
  | Num z => pretty z
  end.

Definition Array_isArray (v : value) : bool :=
  match v with
  | VArr _ => true
  | _ => false
  end.

Fixpoint chars (s : string) : list value :=
  match s with
  | EmptyString => []
  | String c rest => VStr (String c EmptyString) :: chars rest
  end.

(** [[...v]]: arrays and strings are iterable, nothing else that JSON
    can produce is. *)
Definition spread (v : value) : Result (list value) :=
  match v with
  | VArr xs => Ok xs
  | VStr s => Ok (chars s)
  | _ => Throw (TypeError "object is not iterable")
  end.

(** [new Map()] with numeric keys: insertion-ordered, [set] on a key
    already present keeps its position. *)
Definition NumMap : Type := list (JsNum * value).

Fixpoint Map_get (m : NumMap) (k : JsNum) : value :=
  match m with
  | [] => VUndef
  | (k', v) :: rest => if decide (k = k') then v else Map_get rest k
  end.

Fixpoint Map_set (m : NumMap) (k : JsNum) (v : value) : NumMap :=
  match m with
  | [] => [(k, v)]
  | (k', v') :: rest =>
      if decide (k = k') then (k, v) :: rest else (k', v') :: Map_set rest k v
  end.

Definition Map_values (m : NumMap) : list value := m.*2.

(** [new Set()] of numbers, insertion-ordered. *)
Definition Set_add (s : list JsNum) (k : JsNum) : list JsNum :=
  if bool_decide (k ∈ s) then s else s ++ [k].

(** [xs.find(p)] *)
Fixpoint Array_find (p : value -> bool) (xs : list value) : value :=
  match xs with
  | [] => VUndef
  | x :: rest => if p x then x else Array_find p rest
  end.

(** [xs.slice(0, e)] *)
Definition slice0 {A} (e : Z) (xs : list A) : list A :=
  if e <? 0 then take (Z.to_nat (Z.max (Z.of_nat (length xs) + e) 0)) xs
  else take (Z.to_nat e) xs.

End Js.
Export Js.

Notation "a ?? b" := (coalesce a b) (at level 45, right associativity).
Notation "v ?. k" := (prop v k%string) (at level 9, k at level 0, format "v ?. k").

(** ** Configuration *)

Record Config : Type := {
  concurrency : Z;
  intervalMs : Z;
  refreshTtlHours : Z;
  (** the literal 3 in the sync script *)
  retries : nat;
  hotPoolLimit : Z;
  hotPoolTtlDays : Z;
  (** [process.env.V2EX_TOKEN] *)
  V2EX_TOKEN : option string
}.

Definition CONFIG_default : Config :=
  {| concurrency := 2; intervalMs := 350; refreshTtlHours := 24; retries := 3;
     hotPoolLimit := 600; hotPoolTtlDays := 30; V2EX_TOKEN := None |}.

Definition num (z : Z) : value := VNum (Num z).

(** ** The pure functions of the script *)

Section Pure.
Context {E : Engine} (CONFIG : Config).

Definition topicFreshness (topic : value) : JsNum :=
  Number (topic?."last_touched" ?? topic?."last_modified" ?? topic?."created" ?? num 0).

(** The body of the [for] loop of [mergeTopicLists]. *)
Definition mergeTopicLists_step (map : NumMap) (item : value) : NumMap :=
  let id := Number item?."id" in
  if negb (isFinite id) || js_le id (Num 0) then map
  else
    let prev := Map_get map id in
    if negb (ToBoolean prev) then Map_set map id item
    else
      let prevScore := topicFreshness prev in
      let curScore := topicFreshness item in
      if js_ge curScore prevScore then Map_set map id item else map.

Definition mergeTopicLists (a b : value) : Result (list value) :=
  xs ← spread (a ?? VArr []);
  ys ← spread (b ?? VArr []);
  let map := foldl mergeTopicLists_step [] (xs ++ ys) in
  mret (Array_sort (fun x y => js_sub (topicFreshness y) (topicFreshness x))
                   (Map_values map)).

(** The [filter] callback of [updateHotPool]. *)
Definition hotPoolKeep (ttlMs now : Z) (item : value) : bool :=
  let ts :=
    js_mul (Number (item?."last_touched" ?? item?."last_modified"
                      ?? item?."created" ?? num 0)) (Num 1000) in
  if negb (isFinite ts) || js_le ts (Num 0) then true
  else js_le (js_sub (Num now) ts) (Num ttlMs).

Definition hotPoolTtlMs : Z := hotPoolTtlDays CONFIG * 24 * 60 * 60 * 1000.

(** [pruned] and [limited] of [updateHotPool]. *)
Definition hotPoolPruned (now : Z) (merged : list value) : list value :=
  List.filter (hotPoolKeep hotPoolTtlMs now) merged.

Definition hotPoolLimited (pruned : list value) : list value :=
  slice0 (Z.max 1 (hotPoolLimit CONFIG)) pruned.

(** What [updateHotPool] computes between reading the previous pool
    and writing the new one. *)
Definition hotPoolNext (now : Z) (prevPool currentHot : value)
  : Result (list value) :=
  merged ← mergeTopicLists prevPool (currentHot ?? VArr []);
  mret (hotPoolLimited (hotPoolPruned now merged)).

Definition decideRefreshTopic
    (existingTopicDoc : value) (listSnapshot : list (string * value))
    (now ttlMs : JsNum) : bool :=
  if negb (ToBoolean existingTopicDoc?."topic") then true
  else
    let prevFetchedAt :=
      Date_parse (existingTopicDoc?."meta"?."fetched_at" ?? VStr "") in
    if negb (isFinite prevFetchedAt) then true
    else if js_gt (js_sub now prevFetchedAt) ttlMs then true
    else
      let prev := existingTopicDoc?."meta"?."list_snapshot" ?? VObj [] in
      let sameReplies :=
        js_eq (Number (prev?."replies" ?? num (-1)))
              (Number ((VObj listSnapshot)?."replies" ?? num (-2))) in
      let sameTouched :=
        js_eq (Number (prev?."last_modified" ?? num (-1)))
              (Number ((VObj listSnapshot)?."last_modified" ?? num (-2))) in
      negb (sameReplies && sameTouched).

Definition dedupeTopicIds (items : list value) : list JsNum :=
  foldl (fun set item =>
           let id := Number item?."id" in
           if isFinite id && js_gt id (Num 0) then Set_add set id else set)
        [] items.

Definition snapshotFromLists (topicId : JsNum) (latest hot : value)
  : Result (list (string * value)) :=
  xs ← spread (latest ?? VArr []);
  ys ← spread (hot ?? VArr []);
  let hit :=
    Array_find (fun t => js_eq (Number t?."id") (Number (VNum topicId)))
               (xs ++ ys) in
  mret [("id"%string, VNum (Number (VNum topicId)));
        ("replies"%string, VNum (Number (hit?."replies" ?? num 0)));
        ("last_modified"%string,
         VNum (Number (hit?."last_modified" ?? hit?."last_touched" ?? num 0)))].

End Pure.

(** ** The world the script runs in *)

(** Where a [sleep] was called from (kept in the trace only). *)
Inductive SleepSite : Set := InWaitRateLimit | InRetryBackoff.

Inductive Event : Type :=
| EvSleep (site : SleepSite) (ms : Z)
| EvFetch (url : string) (authToken : option string) (issuedAt : Z)
| EvWrite (file : string)
| EvConsole (line : string).

(** What [fetch(url)] settles to: a rejection (transport failure), or a
    response with a status and the outcome of [response.json()]. *)
Inductive FetchOutcome : Type :=
| Rejected (e : JsError)
| Responded (status : Z) (json : Result value).

(** What the file-system calls of [writeJsonAtomic] ([mkdir],
    [writeFile] of the temporary file, [rename]) or of [ensureDirs] do:
    all succeed, or one of them fails, the temporary file left behind
    or not. *)
Inductive DiskOutcome : Type :=
| DiskOk
| DiskFails (e : JsError) (tmpLeft : bool).

(** Everything outside the process: the n-th request's outcome, the
    n-th write's outcome, the extra time the n-th suspension takes. *)
Record Outside : Type := {
  net : nat -> string -> option string -> FetchOutcome;
  disk : nat -> string -> DiskOutcome;
  lag : nat -> N
}.

Record ListStatus : Type := {
  status : string;
  count : Z;
  source : string;
  list_error : option string
}.

Record FailedTopic : Type := {
  topic_id : JsNum;
  error : string
}.

Record Report : Type := {
  started_at : string;
  finished_at : option string;
  config : Config;
  lists : gmap string ListStatus;
  candidates : Z;
  refreshed : Z;
  skipped : Z;
  failed : list FailedTopic
}.

Record World : Type := {
  (** [Date.now()] *)
  clock : Z;
  (** the module-level [let nextAllowedAt] *)
  nextAllowedAt : Z;
  (** parsed content of the JSON files that can be read and parsed *)
  files : gmap string value;
  (** the [report] object of [main], shared by reference *)
  report : Report;
  requests : nat;
  writes : nat;
  suspensions : nat;
  (** oldest event first *)
  trace : list Event
}.

Definition M (A : Type) : Type := World -> Result A * World.

#[global] Instance M_ret : MRet M := fun A a w => (Ok a, w).
#[global] Instance M_bind : MBind M := fun A B f m w =>
  match m w with
  | (Ok a, w') => f a w'
  | (Throw e, w') => (Throw e, w')
  end.

Definition throw {A} (e : JsError) : M A := fun w => (Throw e, w).

(** [try { body } catch (error) { handler }] *)
Definition try_catch {A} (body : M A) (handler : JsError -> M A) : M A :=
  fun w =>
    match body w with
    | (Ok a, w') => (Ok a, w')
    | (Throw e, w') => handler e w'
    end.

Definition lift {A} (r : Result A) : M A := fun w => (r, w).
Definition get_world : M World := fun w => (Ok w, w).
Definition modify (f : World -> World) : M unit := fun w => (Ok tt, f w).

Definition set_clock (t : Z) (w : World) : World :=
  {| clock := t; nextAllowedAt := nextAllowedAt w; files := files w;
     report := report w; requests := requests w; writes := writes w;
     suspensions := suspensions w; trace := trace w |}.
Definition set_nextAllowedAt (t : Z) (w : World) : World :=
  {| clock := clock w; nextAllowedAt := t; files := files w;
     report := report w; requests := requests w; writes := writes w;
     suspensions := suspensions w; trace := trace w |}.
Definition set_files (fs : gmap string value) (w : World) : World :=
  {| clock := clock w; nextAllowedAt := nextAllowedAt w; files := fs;
     report := report w; requests := requests w; writes := writes w;
     suspensions := suspensions w; trace := trace w |}.
Definition set_report (r : Report) (w : World) : World :=
  {| clock := clock w; nextAllowedAt := nextAllowedAt w; files := files w;
     report := r; requests := requests w; writes := writes w;
     suspensions := suspensions w; trace := trace w |}.
Definition count_request (w : World) : World :=
  {| clock := clock w; nextAllowedAt := nextAllowedAt w; files := files w;
     report := report w; requests := S (requests w); writes := writes w;
     suspensions := suspensions w; trace := trace w |}.
Definition count_write (w : World) : World :=
  {| clock := clock w; nextAllowedAt := nextAllowedAt w; files := files w;
     report := report w; requests := requests w; writes := S (writes w);
     suspensions := suspensions w; trace := trace w |}.
Definition count_suspension (w : World) : World :=
  {| clock := clock w; nextAllowedAt := nextAllowedAt w; files := files w;
     report := report w; requests := requests w; writes := writes w;
     suspensions := S (suspensions w); trace := trace w |}.
Definition emit (e : Event) (w : World) : World :=
  {| clock := clock w; nextAllowedAt := nextAllowedAt w; files := files w;
     report := report w; requests := requests w; writes := writes w;
     suspensions := suspensions w; trace := trace w ++ [e] |}.

Definition set_lists (l : gmap string ListStatus) (r : Report) : Report :=
  {| started_at := started_at r; finished_at := finished_at r;
     config := config r; lists := l; candidates := candidates r;
     refreshed := refreshed r; skipped := skipped r; failed := failed r |}.
Definition set_candidates (n : Z) (r : Report) : Report :=
  {| started_at := started_at r; finished_at := finished_at r;
     config := config r; lists := lists r; candidates := n;
     refreshed := refreshed r; skipped := skipped r; failed := failed r |}.
Definition set_refreshed (n : Z) (r : Report) : Report :=
  {| started_at := started_at r; finished_at := finished_at r;
     config := config r; lists := lists r; candidates := candidates r;
     refreshed := n; skipped := skipped r; failed := failed r |}.
Definition set_skipped (n : Z) (r : Report) : Report :=
  {| started_at := started_at r; finished_at := finished_at r;
     config := config r; lists := lists r; candidates := candidates r;
     refreshed := refreshed r; skipped := n; failed := failed r |}.
Definition set_failed (l : list FailedTopic) (r : Report) : Report :=
  {| started_at := started_at r; finished_at := finished_at r;
     config := config r; lists := lists r; candidates := candidates r;
     refreshed := refreshed r; skipped := skipped r; failed := l |}.
Definition set_finished_at (t : option string) (r : Report) : Report :=
  {| started_at := started_at r; finished_at := t;
     config := config r; lists := lists r; candidates := candidates r;
     refreshed := refreshed r; skipped := skipped r; failed := failed r |}.

(** [JSON.parse(JSON.stringify(v))] for [v] other than [undefined]:
    non-finite numbers and array holes become [null], properties bound
    to [undefined] disappear. *)
Fixpoint reparse (v : value) : value :=
  match v with
  | VUndef => VNull
  | VNum (Num _) => v
  | VNum _ => VNull
  | VArr xs => VArr (List.map reparse xs)
  | VObj props =>
      VObj ((fix go (ps : list (string * value)) : list (string * value) :=
               match ps with
               | [] => []
               | (k, VUndef) :: rest => go rest
               | (k, x) :: rest => (k, reparse x) :: go rest
               end) props)
  | _ => v
  end.

(** ** Paths and endpoints *)

Definition INDEX_DIR : string := "data/index".
Definition NODES_DIR : string := "data/nodes".
Definition TOPICS_DIR : string := "data/topics".
Definition REPLIES_DIR : string := "data/replies".
Definition META_DIR : string := "data/meta".
Definition STATE_FILE : string := "data/meta/state.json".
Definition LAST_RUN_FILE : string := "data/meta/last_run.json".
Definition HOT_POOL_FILE : string := "data/index/hot_pool.json".

Definition BASE_V1 : string := "https://www.v2ex.com/api".
Definition BASE_V2 : string := "https://www.v2ex.com/api/v2".

Module endpoints.
Definition latest : string := BASE_V1 +:+ "/topics/latest.json".
Definition hot : string := BASE_V1 +:+ "/topics/hot.json".
Definition nodes : string := BASE_V1 +:+ "/nodes/all.json".
Definition topicById (id : JsNum) : string :=
  BASE_V1 +:+ "/topics/show.json?id=" +:+ Number_toString id.
Definition repliesByTopicId (id : JsNum) : string :=
  BASE_V1 +:+ "/replies/show.json?topic_id=" +:+ Number_toString id.
Definition v2Replies (id : JsNum) (p : Z) : string :=
  BASE_V2 +:+ "/topics/" +:+ Number_toString id +:+ "/replies?p=" +:+ pretty p.
End endpoints.

(** ** The rate-limited retrying client and the file store *)

Section Client.
Context {E : Engine} (CONFIG : Config) (outside : Outside).

(** Control leaves the process at an [await] on a timer or on I/O and
    comes back [lag] milliseconds later than the earliest instant. *)
Definition suspend : M unit :=
  modify (fun w =>
    count_suspension
      (set_clock (clock w + Z.of_N (lag outside (suspensions w))) w)).

Definition Date_now : M Z := fun w => (Ok (clock w), w).

Definition now_toISOString : M string :=
  fun w => (Ok (Date_toISOString (clock w)), w).

(** [sleep(ms)]: [setTimeout] resolves no earlier than [ms] later. *)
Definition sleep (site : SleepSite) (ms : Z) : M unit :=
  modify (emit (EvSleep site ms));;
  modify (fun w => set_clock (clock w + Z.max 0 ms) w);;
  suspend.

Definition console_error (line : string) : M unit :=
  modify (emit (EvConsole line)).

Definition console_log (line : string) : M unit :=
  modify (emit (EvConsole line)).

Definition waitRateLimit : M unit :=
  now ← Date_now;
  w ← get_world;
  (if now <? nextAllowedAt w then sleep InWaitRateLimit (nextAllowedAt w - now)
   else mret tt);;
  now' ← Date_now;
  modify (set_nextAllowedAt (now' + intervalMs CONFIG)).

(** [fetch(url, { headers })] *)
Definition fetch (url : string) (authToken : option string)
  : M (Z * Result value) :=
  fun w =>
    let w1 := count_request (emit (EvFetch url authToken (clock w)) w) in
    let w2 := (suspend w1).2 in
    match net outside (requests w) url authToken with
    | Rejected e => (Throw e, w2)
    | Responded status json => (Ok (status, json), w2)
    end.

(** [response.ok] *)
Definition response_ok (status : Z) : bool :=
  (200 <=? status) && (status <=? 299).

(** [options.authToken ? { Authorization } : {}] *)
Definition authHeader (authToken : option string) : option string :=
  match authToken with
  | Some t => if bool_decide (t = ""%string) then None else Some t
  | None => None
  end.

(** The [try] block of [fetchJsonWithRetry]. *)
Definition fetchJsonWithRetry_try (url : string) (authToken : option string)
  : M value :=
  waitRateLimit;;
  response ← fetch url (authHeader authToken);
  if negb (response_ok response.1)
  then throw (Error ("HTTP " +:+ pretty response.1 +:+ " for " +:+ url))
  else lift response.2.

(** The [for] loop of [fetchJsonWithRetry], entered with counter [i]
    and [remaining = retries - i] iterations to go. *)
Fixpoint fetchJsonWithRetry_loop (url : string) (authToken : option string)
    (remaining i : nat) (lastError : option JsError) : M value :=
  match remaining with
  | O => throw (default (Error ("Request failed: " +:+ url)) lastError)
  | S remaining' =>
      try_catch (fetchJsonWithRetry_try url authToken)
        (fun error =>
           let backoff := intervalMs CONFIG * (Z.of_nat i + 1) * 2 in
           sleep InRetryBackoff backoff;;
           fetchJsonWithRetry_loop url authToken remaining' (S i) (Some error))
  end.

Definition fetchJsonWithRetry (url : string) (authToken : option string)
  : M value :=
  fetchJsonWithRetry_loop url authToken (retries CONFIG) 0 None.

Definition readJson (file : string) (fallback : value) : M value :=
  suspend;;
  w ← get_world;
  mret (default fallback (files w !! file)).

Definition writeJsonAtomic (file : string) (data : value) : M unit :=
  fun w =>
    let w1 := (suspend (count_write (emit (EvWrite file) w))).2 in
    let written (target : string) :=
      match data with
      | VUndef => delete target (files w1)
      | _ => <[target := reparse data]> (files w1)
      end in
    match disk outside (writes w) file with
    | DiskOk => (Ok tt, set_files (written file) w1)
    | DiskFails e tmpLeft =>
        (Throw e,
         if tmpLeft then set_files (written (file +:+ ".tmp")) w1 else w1)
    end.

Definition ensureDirs (dirs : list string) : M unit :=
  fun w =>
    let w1 := (suspend (count_write w)).2 in
    match disk outside (writes w) (default ""%string (head dirs)) with
    | DiskOk => (Ok tt, w1)
    | DiskFails e _ => (Throw e, w1)
    end.

Definition fetchTopic (topicId : JsNum) : M value :=
  data ← fetchJsonWithRetry (endpoints.topicById topicId) None;
  match data with
  | VArr (first :: _) => mret first
  | _ => mret VNull
  end.

(** The paginated [for (let p = 1; p <= 50; p += 1)] loop of
    [fetchReplies]. *)
Fixpoint fetchReplies_pages (topicId : JsNum) (token : string)
    (remaining : nat) (p : Z) (all : list value) : M (list value) :=
  match remaining with
  | O => mret all
  | S remaining' =>
      page ← fetchJsonWithRetry (endpoints.v2Replies topicId p) (Some token);
      let items :=
        match page?."result", page with
        | VArr r, _ => r
        | _, VArr r => r
        | _, _ => []
        end in
      if bool_decide (length items = 0%nat) then mret all
      else if Z.of_nat (length items) <? 50 then mret (all ++ items)
      else fetchReplies_pages topicId token remaining' (p + 1) (all ++ items)
  end.

Definition fetchReplies (topicId : JsNum) : M value :=
  match authHeader (V2EX_TOKEN CONFIG) with
  | None =>
      data ← fetchJsonWithRetry (endpoints.repliesByTopicId topicId) None;
      mret (if Array_isArray data then data else VArr [])
  | Some token =>
      all ← fetchReplies_pages topicId token 50 1 [];
      mret (VArr all)
  end.

End Client.

(** ** One run of the sync *)

Section Sync.
Context {E : Engine} (CONFIG : Config) (outside : Outside).

Definition update_report (f : Report -> Report) : M unit :=
  modify (fun w => set_report (f (report w)) w).

(** [Array.isArray(v) ? v.length : 0] *)
Definition lengthIfArray (v : value) : Z :=
  match v with
  | VArr xs => Z.of_nat (length xs)
  | _ => 0
  end.

Definition fetchAndPersistList (name url filePath : string) : M value :=
  fallback ← readJson outside filePath (VArr []);
  try_catch
    (data ← fetchJsonWithRetry CONFIG outside url None;
     writeJsonAtomic outside filePath data;;
     update_report (fun r =>
       set_lists (<[name := {| status := "fetched"; count := lengthIfArray data;
                               source := url; list_error := None |}]> (lists r)) r);;
     mret data)
    (fun error =>
     update_report (fun r =>
       set_lists (<[name := {| status := "fallback";
                               count := lengthIfArray fallback;
                               source := url;
                               list_error := Some (message error) |}]> (lists r)) r);;
     console_error ("[list:" +:+ name +:+ "] fallback to existing data: "
                    +:+ message error);;
     mret fallback).

Definition updateHotPool (currentHot : value) : M (list value) :=
  prevPool ← readJson outside HOT_POOL_FILE (VArr []);
  merged ← lift (mergeTopicLists prevPool (currentHot ?? VArr []));
  now ← Date_now;
  let pruned := hotPoolPruned CONFIG now merged in
  let limited := hotPoolLimited CONFIG pruned in
  writeJsonAtomic outside HOT_POOL_FILE (VArr limited);;
  mret limited.

(** The object literals written for a topic and for its replies. *)
Definition topicDoc (topicId : JsNum) (topic : value) (fetched_at : string)
    (listSnapshot : list (string * value)) : value :=
  VObj [("topic", topic);
        ("meta", VObj [("fetched_at", VStr fetched_at);
                       ("source", VStr (endpoints.topicById topicId));
                       ("list_snapshot", VObj listSnapshot)])]%string.

Definition repliesDoc (topicId : JsNum) (topic replies : value)
    (fetched_at : string) : value :=
  let totalCount := Number (topic?."replies" ?? replies?."length") in
  let fetchedCount :=
    if Array_isArray replies then Number replies?."length" else Num 0 in
  VObj [("replies", replies);
        ("meta", VObj [("fetched_at", VStr fetched_at);
                       ("source", VStr (endpoints.repliesByTopicId topicId));
                       ("reply_count", VNum totalCount);
                       ("total_count", VNum totalCount);
                       ("fetched_count", VNum fetchedCount);
                       ("partial", VBool (js_lt fetchedCount totalCount))])]%string.

(** First half of the [try] block of the per-topic loop: the value of
    [topic] once the refresh-or-skip branch is through. *)
Definition main_topic_refresh (topicId : JsNum) (topicFile : string)
    (existingTopicDoc : value) (listSnapshot : list (string * value))
    (shouldRefreshTopic : bool) : M value :=
  let topic := existingTopicDoc?."topic" ?? VNull in
  if shouldRefreshTopic then
    topic ← fetchTopic CONFIG outside topicId;
    if negb (ToBoolean topic)
    then throw (Error ("Empty topic payload for " +:+ Number_toString topicId))
    else
      fetched_at ← now_toISOString;
      writeJsonAtomic outside topicFile
        (topicDoc topicId topic fetched_at listSnapshot);;
      update_report (fun r => set_refreshed (refreshed r + 1) r);;
      mret topic
  else
    update_report (fun r => set_skipped (skipped r + 1) r);;
    mret topic.

(** [shouldRefreshReplies] *)
Definition shouldRefreshReplies (shouldRefreshTopic : bool)
    (existingRepliesDoc topic : value) : bool :=
  shouldRefreshTopic
  || negb (ToBoolean existingRepliesDoc)
  || js_neq (Number (existingRepliesDoc?."meta"?."reply_count" ?? num (-1)))
            (Number (topic?."replies" ?? num (-2))).

(** The fetch and write of the replies document. *)
Definition main_replies_fetch (topicId : JsNum) (repliesFile : string)
    (topic : value) : M unit :=
  replies ← fetchReplies CONFIG outside topicId;
  fetched_at ← now_toISOString;
  writeJsonAtomic outside repliesFile
    (repliesDoc topicId topic replies fetched_at).

(** Second half of the [try] block. *)
Definition main_topic_replies (topicId : JsNum) (repliesFile : string)
    (existingRepliesDoc : value) (shouldRefreshTopic : bool) (topic : value)
  : M unit :=
  if shouldRefreshReplies shouldRefreshTopic existingRepliesDoc topic
     && ToBoolean topic
  then main_replies_fetch topicId repliesFile topic
  else mret tt.

Definition main_topic_try (topicId : JsNum) (topicFile repliesFile : string)
    (existingTopicDoc existingRepliesDoc : value)
    (listSnapshot : list (string * value)) (shouldRefreshTopic : bool)
  : M unit :=
  topic ← main_topic_refresh topicId topicFile existingTopicDoc listSnapshot
            shouldRefreshTopic;
  main_topic_replies topicId repliesFile existingRepliesDoc shouldRefreshTopic
    topic.

(** The [catch] block of the per-topic loop. *)
Definition main_topic_catch (topicId : JsNum) (error : JsError) : M unit :=
  update_report (fun r =>
    set_failed (failed r ++ [{| topic_id := topicId; error := message error |}]) r);;
  console_error ("[topic " +:+ Number_toString topicId +:+ "] " +:+ message error).

(** One iteration of [for (const topicId of candidates)]. *)
Definition main_topic (latest hot : value) (now ttlMs : Z) (topicId : JsNum)
  : M unit :=
  let topicFile := TOPICS_DIR +:+ "/" +:+ Number_toString topicId +:+ ".json" in
  let repliesFile := REPLIES_DIR +:+ "/" +:+ Number_toString topicId +:+ ".json" in
  existingTopicDoc ← readJson outside topicFile VNull;
  existingRepliesDoc ← readJson outside repliesFile VNull;
  listSnapshot ← lift (snapshotFromLists topicId latest hot);
  let shouldRefreshTopic :=
    decideRefreshTopic existingTopicDoc listSnapshot (Num now) (Num ttlMs) in
  try_catch
    (main_topic_try topicId topicFile repliesFile existingTopicDoc
       existingRepliesDoc listSnapshot shouldRefreshTopic)
    (main_topic_catch topicId).

Fixpoint for_of {A} (xs : list A) (body : A -> M unit) : M unit :=
  match xs with
  | [] => mret tt
  | x :: rest => body x;; for_of rest body
  end.

Definition main_topics (latest hot : value) (now ttlMs : Z)
    (candidates : list JsNum) : M unit :=
  for_of candidates (main_topic latest hot now ttlMs).

End Sync.

(** ** [main] *)

Section Main.
Context {E : Engine} (CONFIG : Config) (outside : Outside).

Definition Config_value (c : Config) : value :=
  VObj [("concurrency", num (concurrency c));
        ("intervalMs", num (intervalMs c));
        ("refreshTtlHours", num (refreshTtlHours c));
        ("retries", num (Z.of_nat (retries c)));
        ("hotPoolLimit", num (hotPoolLimit c));
        ("hotPoolTtlDays", num (hotPoolTtlDays c))]%string.

Definition ListStatus_value (l : ListStatus) : value :=
  VObj [("status", VStr (status l));
        ("count", num (count l));
        ("source", VStr (source l));
        ("error", from_option VStr VUndef (list_error l))]%string.

Definition FailedTopic_value (f : FailedTopic) : value :=
  VObj [("topic_id", VNum (topic_id f)); ("error", VStr (error f))]%string.

Definition Report_value (r : Report) : value :=
  VObj [("started_at", VStr (started_at r));
        ("finished_at", from_option VStr VNull (finished_at r));
        ("config", Config_value (config r));
        ("lists", VObj (map_to_list (ListStatus_value <$> lists r)));
        ("topics",
         VObj [("candidates", num (candidates r));
               ("refreshed", num (refreshed r));
               ("skipped", num (skipped r));
               ("failed", VArr (FailedTopic_value <$> failed r))])]%string.

Definition main : M unit :=
  startedAt ← now_toISOString;
  ensureDirs outside [INDEX_DIR; NODES_DIR; TOPICS_DIR; REPLIES_DIR; META_DIR];;
  previousState ← readJson outside STATE_FILE (VObj []);
  update_report (fun _ =>
    {| started_at := startedAt; finished_at := None; config := CONFIG;
       lists := ∅; candidates := 0; refreshed := 0; skipped := 0;
       failed := [] |});;
  latest ← fetchAndPersistList CONFIG outside "latest" endpoints.latest
             (INDEX_DIR +:+ "/latest.json");
  hot ← fetchAndPersistList CONFIG outside "hot" endpoints.hot
          (INDEX_DIR +:+ "/hot.json");
  hotPool ← updateHotPool CONFIG outside hot;
  update_report (fun r =>
    set_lists (<["hot_pool"%string :=
                  {| status := "updated"; count := Z.of_nat (length hotPool);
                     source := HOT_POOL_FILE; list_error := None |}]> (lists r)) r);;
  fetchAndPersistList CONFIG outside "nodes" endpoints.nodes
    (NODES_DIR +:+ "/all.json");;
  xs ← lift (spread (latest ?? VArr []));
  ys ← lift (spread (VArr hotPool ?? VArr []));
  let candidates := dedupeTopicIds (xs ++ ys) in
  update_report (set_candidates (Z.of_nat (length candidates)));;
  let ttlMs := refreshTtlHours CONFIG * 60 * 60 * 1000 in
  now ← Date_now;
  main_topics CONFIG outside latest hot now ttlMs candidates;;
  last_success_at ← now_toISOString;
  previous ← lift (member previousState "last_success_at");
  w ← get_world;
  let nextState :=
    VObj [("last_success_at", VStr last_success_at);
          ("candidate_topic_ids", VArr (VNum <$> candidates));
          ("refreshed_topic_count", num (refreshed (report w)));
          ("failed_topic_count", num (Z.of_nat (length (failed (report w)))));
          ("previous_last_success_at", previous ?? VNull)]%string in
  finished_at ← now_toISOString;
  update_report (set_finished_at (Some finished_at));;
  writeJsonAtomic outside STATE_FILE nextState;;
  w ← get_world;
  writeJsonAtomic outside LAST_RUN_FILE (Report_value (report w));;
  console_log
    ("Sync done. candidates=" +:+ pretty (Z.of_nat (length candidates))
     +:+ " refreshed=" +:+ pretty (refreshed (report w))
     +:+ " skipped=" +:+ pretty (skipped (report w))
     +:+ " failed=" +:+ pretty (length (failed (report w)))).

End Main.

(** ** A reference engine and a reference outside world, to run the
    definitions on concrete inputs *)

Module Reference.

Definition digit (c : Ascii.ascii) : option Z :=
  let n := Z.of_nat (Ascii.nat_of_ascii c) in
  if (48 <=? n) && (n <=? 57) then Some (n - 48) else None.

Fixpoint digits (s : string) (acc : Z) : option Z :=
  match s with
  | EmptyString => Some acc
  | String c rest =>
      match digit c with
      | Some d => digits rest (10 * acc + d)
      | None => None
      end
  end.

(** Decimal integer literals, the empty string being 0. *)
Definition decimal (s : string) : JsNum :=
  match s with
  | EmptyString => Num 0
  | String c0 (String c rest) =>
      if bool_decide (Ascii.nat_of_ascii c0 = 45%nat)
      then from_option (fun z => Num (- z)) NaN (digits (String c rest) 0)
      else from_option Num NaN (digits s 0)
  | _ => from_option Num NaN (digits s 0)
  end.

(** Stable insertion sort: [x] goes behind [y] only when the
    comparator says [x > y]. *)
Fixpoint insert_sorted (cmp : value -> value -> JsNum) (x : value)
    (l : list value) : list value :=
  match l with
  | [] => [x]
  | y :: rest =>
      if js_gt (cmp x y) (Num 0) then y :: insert_sorted cmp x rest
      else x :: y :: rest
  end.

Definition insertion_sort (cmp : value -> value -> JsNum) (l : list value)
  : list value :=
  foldr (insert_sorted cmp) [] l.

(** Timestamps are written as decimal millisecond counts instead of
    ISO 8601 text; arrays and objects convert to NaN except the empty
    array. *)
Definition parse_time (v : value) : JsNum :=
  match v with
  | VStr (String c rest) => decimal (String c rest)
  | _ => NaN
  end.

#[export] Instance engine : Engine.
Proof.
  refine {| StringToNumber := decimal;
            ObjectToNumber := fun v => match v with VArr [] => Num 0 | _ => NaN end;
            Date_parse := parse_time;
            Date_toISOString := fun t => pretty t;
            Array_sort := insertion_sort |}.
  intros cmp xs. induction xs as [|x xs IH]; simpl; [done|].
  transitivity (x :: insertion_sort cmp xs); [|by constructor].
  generalize (insertion_sort cmp xs). clear. intros l.
  induction l as [|y l IH]; cbn [insert_sorted]; [done|].
  destruct (js_gt (cmp x y) (Num 0)); [|reflexivity].
  rewrite IH. apply perm_swap.
Defined.

(** An outside world in which every request is answered by [answer]
    and every write succeeds at once. *)
Definition steady (answer : string -> FetchOutcome) : Outside :=
  {| net := fun _ url _ => answer url;
     disk := fun _ _ => DiskOk;
     lag := fun _ => 0%N |}.

Definition report0 : Report :=
  {| started_at := ""; finished_at := None; config := CONFIG_default;
     lists := ∅; candidates := 0; refreshed := 0; skipped := 0; failed := [] |}.

Definition world0 (t : Z) (fs : gmap string value) : World :=
  {| clock := t; nextAllowedAt := 0; files := fs; report := report0;
     requests := 0; writes := 0; suspensions := 0; trace := [] |}.

End Reference.

(** ** What the code is compared with *)

(** The spec's reading of the freshness score: the largest of the
    activity timestamps that are present, 0 when none is. *)
Definition js_max (a b : JsNum) : JsNum :=
  match a, b with
  | NaN, _ | _, NaN => NaN
  | _, _ => if js_lt a b then b else a
  end.

Definition present (v : value) : bool := negb (nullish v).

Definition activityFields (topic : value) : list value :=
  List.filter present
    [topic?."last_touched"; topic?."last_modified"; topic?."created"].

Definition freshness_max {E : Engine} (topic : value) : JsNum :=
  match activityFields topic with
  | [] => Num 0
  | f :: fs => foldl js_max (Number f) (Number <$> fs)
  end.

Definition freshness_first_present {E : Engine} (topic : value) : JsNum :=
  match activityFields topic with
  | [] => Num 0
  | f :: _ => Number f
  end.

Definition touched_then_modified : value :=
  VObj [("id", num 1); ("last_touched", num 100); ("last_modified", num 200)]%string.


(** Every binding of the merge map is filed under the numeric id of
    its item, and no key occurs twice. *)
Definition Map_wf {E : Engine} (m : NumMap) : Prop :=
  NoDup m.*1 /\ Forall (fun kv => Number (kv.2)?."id" = kv.1) m.

(** The four conditions of the refresh policy, in the order the
    specification lists them.  A snapshot is compared as a pair of
    numbers, read the way the script coerces them: a field that the
    stored snapshot lacks reads as -1, one that the current snapshot
    lacks as -2, so that a field missing on both sides counts as a
    difference; NaN differs from everything. *)
Definition lacksTopic (existingDoc : value) : bool :=
  negb (ToBoolean existingDoc?."topic").

Definition fetchedAt {E : Engine} (existingDoc : value) : JsNum :=
  Date_parse (existingDoc?."meta"?."fetched_at" ?? VStr "").

Definition storedPair {E : Engine} (existingDoc : value) : JsNum * JsNum :=
  let prev := existingDoc?."meta"?."list_snapshot" ?? VObj [] in
  (Number (prev?."replies" ?? num (-1)),
   Number (prev?."last_modified" ?? num (-1))).

Definition currentPair {E : Engine} (listSnapshot : list (string * value))
  : JsNum * JsNum :=
  (Number ((VObj listSnapshot)?."replies" ?? num (-2)),
   Number ((VObj listSnapshot)?."last_modified" ?? num (-2))).

Definition pairDiffers (p q : JsNum * JsNum) : bool :=
  js_neq p.1 q.1 || js_neq p.2 q.2.

Definition policyRefresh {E : Engine} (existingDoc : value)
    (listSnapshot : list (string * value)) (now ttl : JsNum) : Prop :=
  lacksTopic existingDoc = true
  \/ isFinite (fetchedAt existingDoc) = false
  \/ js_gt (js_sub now (fetchedAt existingDoc)) ttl = true
  \/ pairDiffers (storedPair existingDoc) (currentPair listSnapshot) = true.

(** What one call of [fetchJsonWithRetry] is specified to do, read off
    the trace: requests and backoff sleeps, in order. *)
Inductive Step : Type :=
| Request (url : string)
| Backoff (ms : Z).

Definition step_of (e : Event) : option Step :=
  match e with
  | EvFetch url _ _ => Some (Request url)
  | EvSleep InRetryBackoff ms => Some (Backoff ms)
  | _ => None
  end.

Definition steps (tr : list Event) : list Step := omap step_of tr.

(** How the attempt that issues the [k]-th request of the run ends: a
    parsed body, or the error of a rejected request, of a status
    outside 200..299, or of a body that does not parse. *)
Definition attemptResult (outside : Outside) (url : string)
    (authToken : option string) (k : nat) : Result value :=
  match net outside k url (authHeader authToken) with
  | Rejected e => Throw e
  | Responded status json =>
      if (200 <=? status) && (status <=? 299) then json
      else Throw (Error ("HTTP " +:+ pretty status +:+ " for " +:+ url))
  end.

(** Attempts [i+1 .. i+f] failing: each request is followed by a sleep
    of [intervalMs * n * 2], [n] the attempt's number from 1. *)
Definition failedAttempts (CONFIG : Config) (url : string) (i f : nat)
  : list Step :=
  n ← seq (S i) f;
  [Request url; Backoff (intervalMs CONFIG * Z.of_nat n * 2)].

(** The instants at which requests were issued, oldest first. *)
Definition issue_of (e : Event) : option Z :=
  match e with
  | EvFetch _ _ issuedAt => Some issuedAt
  | _ => None
  end.

Definition issues (tr : list Event) : list Z := omap issue_of tr.

(** Consecutive instants are at least [gap] apart. *)
Fixpoint spaced (gap : Z) (ts : list Z) : Prop :=
  match ts with
  | a :: (b :: _) as rest => a + gap <= b /\ spaced gap rest
  | _ => True
  end.

(** The rate gate's invariant: the requests issued so far are spaced,
    and the gate stands at least [intervalMs] after the last one. *)
Definition gate_inv (CONFIG : Config) (w : World) : Prop :=
  spaced (intervalMs CONFIG) (issues (trace w))
  /\ forall t, last (issues (trace w)) = Some t ->
               t + intervalMs CONFIG <= nextAllowedAt w.

(** What the gate invariant looks at. *)
Definition gate_view (w : World) : list Z * Z :=
  (issues (trace w), nextAllowedAt w).

(** [m] leaves what [view] shows of the world as it was. *)
Definition keeps {A V} (view : World -> V) (m : M A) : Prop :=
  forall w, view (m w).2 = view w.

(** [m] issues no request and leaves the gate where it is. *)
Definition quiet {A} (m : M A) : Prop := keeps gate_view m.

Definition preserves {A} (P : World -> Prop) (m : M A) : Prop :=
  forall w, P w -> P (m w).2.

(** The failures a run has recorded so far. *)
Definition failures (w : World) : list FailedTopic := failed (report w).

(** The specification's condition for fetching the replies again. *)
Definition repliesRefetchDue {E : Engine} (refreshedThisRun : bool)
    (existingRepliesDoc topic : value) : bool :=
  refreshedThisRun
  || negb (ToBoolean existingRepliesDoc)
  || js_neq (Number (existingRepliesDoc?."meta"?."reply_count" ?? num (-1)))
            (Number (topic?."replies" ?? num (-2))).

(** ** Concrete inputs *)

Module Example.
Import Reference.

(** Topic 5, fetched two hours before [now], its list snapshot
    unchanged since. *)
Definition fetched : Z := 1700000000000.
Definition now : Z := fetched + 2 * 60 * 60 * 1000.

Definition snapshot5 : list (string * value) :=
  [("id", num 5); ("replies", num 2); ("last_modified", num 100)]%string.

Definition doc5 : value :=
  VObj [("topic", VObj [("id", num 5); ("replies", num 2)]);
        ("meta", VObj [("fetched_at", VStr (pretty fetched));
                       ("source", VStr (endpoints.topicById (Num 5)));
                       ("list_snapshot", VObj snapshot5)])]%string.

(** Two pool entries, touched 40 and 10 days before [now]. *)
Definition day : Z := 24 * 60 * 60.
Definition touched40 : value :=
  VObj [("id", num 1); ("last_touched", num (now / 1000 - 40 * day))]%string.
Definition touched10 : value :=
  VObj [("id", num 2); ("last_touched", num (now / 1000 - 10 * day))]%string.

(** A server that answers every request with status 500, and a store
    holding an earlier snapshot of the latest list. *)
Definition failing : Outside := steady (fun _ => Responded 500 (Ok VNull)).

Definition latest_file : string := "data/index/latest.json".

Definition stored : World :=
  world0 now {[ latest_file := VArr [touched10] ]}.

(** An empty store, and the iteration of the per-topic loop for
    candidate 7 run on it against the failing server. *)
Definition empty : World := world0 now ∅.

Definition topic7 : Result unit * World :=
  main_topic CONFIG_default failing (VArr []) VNull now (24 * 60 * 60 * 1000)
    (Num 7) empty.

End Example.

(** The URLs requested, oldest first. *)
Definition requested (tr : list Event) : list string :=
  omap (fun e => match e with EvFetch url _ _ => Some url | _ => None end) tr.

(** ** A first run *)

Module FirstRun.
Import Reference.

Definition topic1 : value :=
  VObj [("id", num 1); ("replies", num 2); ("last_modified", num 100)]%string.

(** The server: topic 1 is the only latest topic, nothing is hot, and
    topic 1 has two replies. *)
Definition answer (url : string) : FetchOutcome :=
  if bool_decide (url = endpoints.latest) then Responded 200 (Ok (VArr [topic1]))
  else if bool_decide (url = endpoints.hot) then Responded 200 (Ok (VArr []))
  else if bool_decide (url = endpoints.nodes) then Responded 200 (Ok (VArr []))
  else if bool_decide (url = endpoints.topicById (Num 1))
       then Responded 200 (Ok (VArr [topic1]))
  else if bool_decide (url = endpoints.repliesByTopicId (Num 1))
       then Responded 200 (Ok (VArr [VObj []; VObj []]))
  else Responded 404 (Ok VNull).

Definition run : Result unit * World :=
  main CONFIG_default (steady answer) (world0 Example.now ∅).

End FirstRun.

(** ** More of the fetch script: what the further properties speak of *)

(** The body of the [for] loop of [dedupeTopicIds]. *)
Definition dedupeTopicIds_step {E : Engine} (set : list JsNum) (item : value)
  : list JsNum :=
  let id := Number item?."id" in
  if isFinite id && js_gt id (Num 0) then Set_add set id else set.

(** What the merge map holds after the items [seen]: bindings of
    items seen, under their finite positive ids, one for every such id
    seen, and, when every score seen is finite, one whose score no item
    seen with that id exceeds. *)
Definition merged_from {E : Engine} (seen : list value) (m : NumMap) : Prop :=
  Map_wf m
  /\ (forall k v, (k, v) ∈ m -> v ∈ seen /\ exists z, k = Num z /\ 0 < z)
  /\ (forall item z,
        item ∈ seen -> Number item?."id" = Num z -> 0 < z ->
        exists kept,
          (Num z, kept) ∈ m
          /\ ((forall i, i ∈ seen -> isFinite (topicFreshness i) = true) ->
              js_le (topicFreshness item) (topicFreshness kept) = true)).

(** What [Array.prototype.sort] owes its caller when the comparator is
    the difference of an integer key, as a consistent comparator: the
    result is in descending order of the key. *)
Definition sorts_by_key (E : Engine) : Prop :=
  forall (key : value -> Z) (cmp : value -> value -> JsNum) (xs : list value),
    (forall x y, x ∈ xs -> y ∈ xs -> cmp x y = Num (key y - key x)) ->
    StronglySorted (fun x y => key y <= key x) (Array_sort cmp xs).

(** No entry is staler than one before it. *)
Definition freshest_first {E : Engine} (pool : list value) : Prop :=
  StronglySorted
    (fun x y => js_ge (topicFreshness x) (topicFreshness y) = true) pool.

(** The score as an integer, for the entries that have a finite one. *)
Definition freshness_key {E : Engine} (item : value) : Z :=
  match topicFreshness item with
  | Num z => z
  | _ => 0
  end.

(** What [reparse] makes of the properties of an object. *)
Fixpoint reparse_props (ps : list (string * value)) : list (string * value) :=
  match ps with
  | [] => []
  | (k, VUndef) :: rest => reparse_props rest
  | (k, x) :: rest => (k, reparse x) :: reparse_props rest
  end.

(** [m] issues at most [n] requests. *)
Definition costs {A} (n : nat) (m : M A) : Prop :=
  forall w, (requests w <= requests (m w).2 <= requests w + n)%nat.

(** The topics a run has counted as refreshed or as skipped. *)
Definition handled (w : World) : Z :=
  refreshed (report w) + skipped (report w).

(** The report apart from what the per-topic loop counts. *)
Definition report_header (r : Report)
  : string * option string * Config * gmap string ListStatus * Z :=
  (started_at r, finished_at r, config r, lists r, candidates r).

(** [m] throws nothing but errors in [P]. *)
Definition fails_only {A} (P : JsError -> Prop) (m : M A) : Prop :=
  forall w e w', m w = (Throw e, w') -> P e.

(** What can end a run early: a failure of the file system, or a
    [TypeError] of the script itself. *)
Definition fatal (outside : Outside) (e : JsError) : Prop :=
  (exists n file tmpLeft, disk outside n file = DiskFails e tmpLeft)
  \/ exists msg, e = TypeError msg.

(** [Array.isArray(page?.result) ? page.result
     : Array.isArray(page) ? page : []] *)
Definition replyItems (page : value) : list value :=
  match page?."result", page with
  | VArr r, _ => r
  | _, VArr r => r
  | _, _ => []
  end.

(** The request numbered [n] was issued between [w] and [w']. *)
Definition issued_between (w w' : World) (n : nat) : Prop :=
  (requests w <= n < requests w')%nat.

(** ** Concrete inputs for the further properties *)

Module Cases.
Import Reference.

(** The refresh of topic 1 on an empty store, against the server of
    the first run. *)
Definition topicFile1 : string := "data/topics/1.json".

Definition snapshot1 : list (string * value) :=
  [("id", num 1); ("replies", num 2); ("last_modified", num 100)]%string.

Definition refresh1 : Result value * World :=
  main_topic_refresh CONFIG_default (steady FirstRun.answer) (Num 1)
    topicFile1 VNull snapshot1 true (world0 Example.now ∅).

(** The fetch of the latest list on an empty store. *)
Definition latest_fetched : Result value * World :=
  fetchJsonWithRetry CONFIG_default (steady FirstRun.answer) endpoints.latest
    None
    (readJson (steady FirstRun.answer) Example.latest_file (VArr [])
       (world0 Example.now ∅)).2.

(** A server that answers every request with an empty array. *)
Definition hollow : Outside := steady (fun _ => Responded 200 (Ok (VArr []))).

Definition topic7_fetched : Result value * World :=
  fetchJsonWithRetry CONFIG_default hollow (endpoints.topicById (Num 7)) None
    Example.empty.

(** A configuration with a token, and a server with two pages of
    replies for topic 1: fifty replies, then one. *)
Definition CONFIG_token : Config :=
  {| concurrency := 2; intervalMs := 350; refreshTtlHours := 24; retries := 3;
     hotPoolLimit := 600; hotPoolTtlDays := 30; V2EX_TOKEN := Some "t"%string |}.

Definition paged : Outside :=
  steady (fun url =>
    if bool_decide (url = endpoints.v2Replies (Num 1) 1)
    then Responded 200 (Ok (VObj [("result"%string, VArr (replicate 50 (VObj [])))]))
    else if bool_decide (url = endpoints.v2Replies (Num 1) 2)
    then Responded 200 (Ok (VArr [VObj []]))
    else Responded 404 (Ok VNull)).

Definition replies1 : Result value * World :=
  fetchReplies CONFIG_token paged (Num 1) (world0 Example.now ∅).

End Cases.

(** The files an iteration of the per-topic loop may write for a
    topic: its two documents and their temporary files. *)
Definition topic_files (topicId : JsNum) : list string :=
  let topicFile := TOPICS_DIR +:+ "/" +:+ Number_toString topicId +:+ ".json" in
  let repliesFile := REPLIES_DIR +:+ "/" +:+ Number_toString topicId +:+ ".json" in
  [topicFile; topicFile +:+ ".tmp"; repliesFile; repliesFile +:+ ".tmp"].

(** * Properties *)

(** ** Running the monad *)

Lemma bind_run {A B} (m : M A) (f : A -> M B) w :
  (m ≫= f) w =
    match m w with
    | (Ok a, w1) => f a w1
    | (Throw e, w1) => (Throw e, w1)
    end.
Proof. reflexivity. Qed.

Lemma bind_Ok_inv {A B} (m : M A) (f : A -> M B) w b w' :
  (m ≫= f) w = (Ok b, w') ->
  exists a w1, m w = (Ok a, w1) /\ f a w1 = (Ok b, w').
Proof.
  unfold mbind, M_bind. destruct (m w) as [[a|e] w1]; [eauto|done].
Qed.

(** ** Freshness score and hot pool *)

Section HotPool.
Context {E : Engine} (CONFIG : Config).

Lemma coalesce_present a b : present a = true -> a ?? b = a.
Proof. unfold present, coalesce. by destruct (nullish a). Qed.

Lemma coalesce_absent a b : present a = false -> a ?? b = b.
Proof. unfold present, coalesce. by destruct (nullish a). Qed.

(** C4 (as amended): the freshness score is the first present field
    among last_touched, last_modified, created, in this order, read as
    a number, and 0 when none is present; the TTL prune of the hot pool
    judges the same score, in milliseconds. *)
Theorem topicFreshness_first_present (topic : value) :
  topicFreshness topic = freshness_first_present topic
  /\ (forall ttlMs now,
        hotPoolKeep ttlMs now topic =
          let ts := js_mul (topicFreshness topic) (Num 1000) in
          negb (isFinite ts) || js_le ts (Num 0)
          || js_le (js_sub (Num now) ts) (Num ttlMs)).
Proof.
  split.
  - unfold topicFreshness, freshness_first_present, activityFields.
    cbn [List.filter].
    destruct (present topic?."last_touched") eqn:Ha.
    { by rewrite coalesce_present. }
    rewrite (coalesce_absent _ _ Ha).
    destruct (present topic?."last_modified") eqn:Hb.
    { by rewrite coalesce_present. }
    rewrite (coalesce_absent _ _ Hb).
    destruct (present topic?."created") eqn:Hc.
    { by rewrite coalesce_present. }
    by rewrite (coalesce_absent _ _ Hc).
  - intros ttlMs now. unfold hotPoolKeep, topicFreshness. cbv zeta.
    by destruct (negb _ || js_le _ _).
Qed.

End HotPool.

(** C4, counterexample: with last_touched 100 and last_modified 200
    the score is 100, not the maximum 200. *)
Lemma topicFreshness_not_max :
  topicFreshness (E := Reference.engine) touched_then_modified = Num 100
  /\ freshness_max (E := Reference.engine) touched_then_modified = Num 200
  /\ ~ (forall (E : Engine) (topic : value),
          topicFreshness topic = freshness_max topic).
Proof.
  split; [reflexivity|]. split; [reflexivity|].
  intros Hall. specialize (Hall Reference.engine touched_then_modified).
  discriminate Hall.
Qed.

(** ** Hot pool: TTL prune, uniqueness of ids, cap *)

Section HotPoolInvariants.
Context {E : Engine} (CONFIG : Config).

Lemma filter_sublist {A} (p : A -> bool) (l : list A) :
  List.filter p l `sublist_of` l.
Proof.
  induction l as [|x l IH]; simpl; [constructor|].
  destruct (p x); by constructor.
Qed.

Lemma elem_of_filter_bool {A} (p : A -> bool) (l : list A) (x : A) :
  x ∈ List.filter p l <-> x ∈ l /\ p x = true.
Proof. rewrite !list_elem_of_In. apply filter_In. Qed.

(** The timestamp the prune judges is the freshness score in
    milliseconds. *)
Lemma hotPoolKeep_usable ttlMs now item z :
  topicFreshness item = Num z -> 0 < z ->
  hotPoolKeep ttlMs now item = (now - z * 1000 <=? ttlMs).
Proof.
  intros Hf Hz. unfold hotPoolKeep. unfold topicFreshness in Hf. rewrite Hf.
  cbn. destruct (z * 1000 <=? 0) eqn:Hle; [lia|].
  reflexivity.
Qed.

Lemma hotPoolKeep_unusable ttlMs now item :
  (forall z, topicFreshness item = Num z -> z <= 0) ->
  hotPoolKeep ttlMs now item = true.
Proof.
  intros Hf. unfold hotPoolKeep. unfold topicFreshness in Hf.
  destruct (Number _) as [| | |z]; try reflexivity.
  specialize (Hf z eq_refl). cbn.
  destruct (z * 1000 <=? 0) eqn:Hle; [done|]. lia.
Qed.

Lemma hotPoolLimited_sublist pruned :
  hotPoolLimited CONFIG pruned `sublist_of` pruned.
Proof.
  unfold hotPoolLimited, slice0.
  destruct (_ <? 0); apply sublist_take.
Qed.

(** C3: after the TTL prune every surviving entry with a finite
    positive freshness timestamp [z] (seconds) satisfies
    [now - z * 1000 <= ttlMs], also in the capped pool that
    [updateHotPool] keeps, and every merged entry whose timestamp is
    missing, not a finite number or not positive survives the prune. *)
Theorem hotPoolPruned_ttl (now : Z) (merged : list value) :
  (forall item z,
      item ∈ hotPoolPruned CONFIG now merged ->
      topicFreshness item = Num z -> 0 < z ->
      now - z * 1000 <= hotPoolTtlDays CONFIG * 24 * 60 * 60 * 1000)
  /\ (forall item z,
      item ∈ hotPoolLimited CONFIG (hotPoolPruned CONFIG now merged) ->
      topicFreshness item = Num z -> 0 < z ->
      now - z * 1000 <= hotPoolTtlDays CONFIG * 24 * 60 * 60 * 1000)
  /\ (forall item,
      item ∈ merged ->
      (forall z, topicFreshness item = Num z -> z <= 0) ->
      item ∈ hotPoolPruned CONFIG now merged).
Proof.
  assert (Hsurv : forall item z,
      item ∈ hotPoolPruned CONFIG now merged ->
      topicFreshness item = Num z -> 0 < z ->
      now - z * 1000 <= hotPoolTtlDays CONFIG * 24 * 60 * 60 * 1000).
  { intros item z Hin Hf Hz.
    apply elem_of_filter_bool in Hin as [_ Hkeep].
    rewrite (hotPoolKeep_usable _ _ _ z Hf Hz) in Hkeep.
    unfold hotPoolTtlMs in Hkeep. lia. }
  split; [exact Hsurv|]. split.
  - intros item z Hin. apply Hsurv.
    eapply elem_of_sublist; [done|apply hotPoolLimited_sublist].
  - intros item Hin Hf. apply elem_of_filter_bool. split; [done|].
    by apply hotPoolKeep_unusable.
Qed.

End HotPoolInvariants.

Section HotPoolMerge.
Context {E : Engine} (CONFIG : Config).

Lemma Map_set_keys m k v :
  (Map_set m k v).*1 = if bool_decide (k ∈ m.*1) then m.*1 else m.*1 ++ [k].
Proof.
  induction m as [|[k' v'] m IH]; csimpl; [done|].
  destruct (decide (k = k')) as [->|Hne]; csimpl.
  - rewrite bool_decide_eq_true_2; [done|]. constructor.
  - rewrite IH. destruct (bool_decide (k ∈ m.*1)) eqn:Hin.
    + apply bool_decide_eq_true in Hin.
      rewrite bool_decide_eq_true_2; [done|]. by constructor.
    + apply bool_decide_eq_false in Hin.
      rewrite bool_decide_eq_false_2; [done|].
      rewrite elem_of_cons. by intros [?|?].
Qed.

Lemma Map_set_wf m k v :
  Map_wf m -> Number v?."id" = k -> Map_wf (Map_set m k v).
Proof.
  intros [Hnd Hall] Hid. split.
  - rewrite Map_set_keys. case_bool_decide as Hin; [done|].
    apply NoDup_app. split; [done|]. split; [|apply NoDup_singleton].
    intros x Hx ->%list_elem_of_singleton. done.
  - clear Hnd. induction Hall as [|[k' v'] m Hk Hall IH]; simpl.
    + by repeat constructor.
    + destruct (decide (k = k')); constructor; done.
Qed.

Lemma mergeTopicLists_step_wf m item :
  Map_wf m -> Map_wf (mergeTopicLists_step m item).
Proof.
  intros Hm. unfold mergeTopicLists_step.
  destruct (negb _ || js_le _ _); [done|].
  destruct (negb (ToBoolean _)); [by apply Map_set_wf|].
  destruct (js_ge _ _); [by apply Map_set_wf|done].
Qed.

Lemma mergeTopicLists_fold_wf items m :
  Map_wf m -> Map_wf (foldl mergeTopicLists_step m items).
Proof.
  revert m. induction items as [|x items IH]; intros m Hm; simpl; [done|].
  by apply IH, mergeTopicLists_step_wf.
Qed.

Lemma Map_values_ids m :
  Map_wf m -> (fun item => Number item?."id") <$> Map_values m = m.*1.
Proof.
  intros [_ Hall]. unfold Map_values.
  induction Hall as [|[k v] m Hk Hall IH]; csimpl in *; [done|].
  by rewrite Hk, IH.
Qed.

Lemma mergeTopicLists_NoDup a b merged :
  mergeTopicLists a b = Ok merged ->
  NoDup ((fun item => Number item?."id") <$> merged).
Proof.
  unfold mergeTopicLists. intros Hm.
  destruct (spread (a ?? VArr [])) as [xs|]; [|done].
  destruct (spread (b ?? VArr [])) as [ys|]; [|done].
  simpl in Hm. injection Hm as <-.
  rewrite (Array_sort_Permutation _ _).
  assert (Hwf : Map_wf (foldl mergeTopicLists_step [] (xs ++ ys))).
  { apply mergeTopicLists_fold_wf. split; constructor. }
  rewrite (Map_values_ids _ Hwf). apply Hwf.
Qed.

Lemma slice0_length {A} (e : Z) (xs : list A) :
  0 <= e -> Z.of_nat (length (slice0 e xs)) <= e.
Proof.
  intros He. unfold slice0. destruct (e <? 0) eqn:Hneg; [lia|].
  rewrite length_take. lia.
Qed.

(** C2: the hot-pool update of two arrays always yields a pool;
    whenever the update yields a pool, from any previous content and any
    fresh list, no two of its entries have the same id (as a number, and
    hence as written) and it has at most [max(1, hotPoolLimit)]
    entries; and the pool [updateHotPool] returns and writes is that
    pool, made from the content of the pool file and the fresh list. *)
Theorem hotPoolNext_unique_capped (now : Z) :
  (forall prevPool currentHot : list value,
      exists pool,
        hotPoolNext CONFIG now (VArr prevPool) (VArr currentHot) = Ok pool)
  /\ (forall (prevPool currentHot : value) (pool : list value),
      hotPoolNext CONFIG now prevPool currentHot = Ok pool ->
      NoDup ((fun item => Number item?."id") <$> pool)
      /\ NoDup ((fun item => item?."id") <$> pool)
      /\ Z.of_nat (length pool) <= Z.max 1 (hotPoolLimit CONFIG))
  /\ (forall (outside : Outside) (currentHot : value) (w w' : World)
             (pool : list value),
      updateHotPool CONFIG outside currentHot w = (Ok pool, w') ->
      (exists at_, hotPoolNext CONFIG at_
                     (default (VArr []) (files w !! HOT_POOL_FILE)) currentHot
                   = Ok pool)
      /\ files w' !! HOT_POOL_FILE = Some (reparse (VArr pool))).
Proof.
  split; [|split].
  - intros prevPool currentHot. unfold hotPoolNext, mergeTopicLists.
    simpl. eauto.
  - intros prevPool currentHot pool Hnext. unfold hotPoolNext in Hnext.
    destruct (mergeTopicLists _ _) as [merged|] eqn:Hm; [|done].
    simpl in Hnext. injection Hnext as <-.
    apply mergeTopicLists_NoDup in Hm.
    assert (Hsub : hotPoolLimited CONFIG (hotPoolPruned CONFIG now merged)
                     `sublist_of` merged).
    { etransitivity; [apply hotPoolLimited_sublist|apply filter_sublist]. }
    assert (Hnd : NoDup ((fun item => Number item?."id") <$>
                hotPoolLimited CONFIG (hotPoolPruned CONFIG now merged))).
    { exact (sublist_NoDup _ _ Hm (fmap_sublist _ _ _ Hsub)). }
    split; [exact Hnd|]. split.
    + apply (NoDup_fmap_1 Number). by rewrite <- list_fmap_compose.
    + apply slice0_length. lia.
  - intros outside currentHot w w' pool.
    intros (prevPool & w1 & [= <- <-] & Hrest)%bind_Ok_inv.
    apply bind_Ok_inv in Hrest as (merged & w2 & Hmerge & Hrest).
    apply bind_Ok_inv in Hrest as (at_ & w3 & [= <- <-] & Hrest).
    apply bind_Ok_inv in Hrest as ([] & w4 & Hwrite & [= <- <-]).
    unfold lift in Hmerge. injection Hmerge as Hmerge <-. split.
    + eexists. unfold hotPoolNext. rewrite Hmerge. reflexivity.
    + unfold writeJsonAtomic in Hwrite.
      destruct (disk outside _ _) as [|e tmpLeft]; [|done].
      injection Hwrite as <-. cbn. by rewrite lookup_insert_eq.
Qed.

End HotPoolMerge.

(** ** Refresh policy *)

Section RefreshPolicy.
Context {E : Engine}.

Lemma js_le_not_gt a b : js_le a b = true -> js_gt a b = false.
Proof.
  unfold js_gt. destruct a as [| | |x], b as [| | |y]; simpl; try done.
  intros Hle. apply Z.ltb_ge. by apply Z.leb_le.
Qed.

Lemma decideRefreshTopic_unfold existingDoc listSnapshot now ttl :
  decideRefreshTopic existingDoc listSnapshot now ttl =
    lacksTopic existingDoc
    || negb (isFinite (fetchedAt existingDoc))
    || js_gt (js_sub now (fetchedAt existingDoc)) ttl
    || pairDiffers (storedPair existingDoc) (currentPair listSnapshot).
Proof.
  unfold decideRefreshTopic, lacksTopic, fetchedAt, pairDiffers, storedPair,
    currentPair, js_neq. cbv zeta. cbn [fst snd].
  destruct (negb (ToBoolean _)); [done|].
  destruct (negb (isFinite _)); [done|].
  destruct (js_gt _ _); [done|]. cbn [orb].
  by rewrite negb_andb.
Qed.

(** C1: [decideRefreshTopic] answers true exactly when the existing
    document is absent or has no topic, or its [meta.fetched_at] does
    not parse, or [now - fetched_at > ttl], or the stored snapshot's
    (replies, last_modified) pair differs numerically from the current
    one's.  In particular it answers true for an absent document
    whatever the other inputs, and false for a document with a topic
    whose [fetched_at] is within the TTL and whose two snapshot numbers
    are those of the current snapshot. *)
Theorem decideRefreshTopic_policy
    (existingDoc : value) (listSnapshot : list (string * value))
    (now ttl : JsNum) :
  (decideRefreshTopic existingDoc listSnapshot now ttl = true
     <-> policyRefresh existingDoc listSnapshot now ttl)
  /\ (nullish existingDoc = true ->
      decideRefreshTopic existingDoc listSnapshot now ttl = true)
  /\ (forall t : Z,
      ToBoolean existingDoc?."topic" = true ->
      fetchedAt existingDoc = Num t ->
      js_le (js_sub now (Num t)) ttl = true ->
      js_eq (storedPair existingDoc).1 (currentPair listSnapshot).1 = true ->
      js_eq (storedPair existingDoc).2 (currentPair listSnapshot).2 = true ->
      decideRefreshTopic existingDoc listSnapshot now ttl = false).
Proof.
  rewrite decideRefreshTopic_unfold. split; [|split].
  - unfold policyRefresh. rewrite !orb_true_iff, negb_true_iff. tauto.
  - intros Hnull. unfold lacksTopic.
    by destruct existingDoc.
  - intros t Htopic Hat Hle Hr Hm. unfold lacksTopic, pairDiffers, js_neq.
    rewrite Htopic, Hat, Hr, Hm. cbn. by rewrite js_le_not_gt.
Qed.

End RefreshPolicy.

(** ** The retrying client *)

Section Retry.
Context (CONFIG : Config) (outside : Outside).

Lemma steps_app tr1 tr2 : steps (tr1 ++ tr2) = steps tr1 ++ steps tr2.
Proof. apply omap_app. Qed.

Lemma sleep_run site ms w :
  exists w',
    sleep outside site ms w = (Ok tt, w')
    /\ trace w' = trace w ++ [EvSleep site ms]
    /\ requests w' = requests w
    /\ nextAllowedAt w' = nextAllowedAt w
    /\ files w' = files w
    /\ report w' = report w
    /\ clock w + Z.max 0 ms <= clock w'.
Proof.
  eexists. split; [reflexivity|]. cbn. repeat split. lia.
Qed.

(** One pass through the [try] block: the gate, then exactly one
    request, ending as the outside world decides. *)
Lemma fetchJsonWithRetry_try_run url authToken w :
  exists w' gate,
    fetchJsonWithRetry_try CONFIG outside url authToken w
      = (attemptResult outside url authToken (requests w), w')
    /\ trace w' = trace w ++ gate ++ [EvFetch url (authHeader authToken)
                                        (nextAllowedAt w' - intervalMs CONFIG)]
    /\ steps gate = []
    /\ requests w' = S (requests w)
    /\ files w' = files w
    /\ report w' = report w
    /\ nextAllowedAt w <= nextAllowedAt w' - intervalMs CONFIG
    /\ issues gate = [].
Proof.
  unfold fetchJsonWithRetry_try, attemptResult, waitRateLimit, fetch, sleep,
    suspend, response_ok.
  unfold mbind, M_bind, Date_now, get_world, modify, mret, M_ret, lift, throw.
  cbn.
  destruct (clock w <? nextAllowedAt w) eqn:Hlt; cbn;
    [set (gate := [EvSleep InWaitRateLimit (nextAllowedAt w - clock w)])
    |set (gate := @nil Event)];
    (destruct (net outside (requests w) url (authHeader authToken))
       as [e|status json]; cbn;
     [|destruct ((200 <=? status) && (status <=? 299)); cbn]);
    eexists _, gate; (split; [reflexivity|]); subst gate; cbn;
    rewrite <- ?app_assoc; cbn;
    (repeat split; [repeat f_equal; lia|lia]).
Qed.

Lemma failedAttempts_S url i f :
  failedAttempts CONFIG url i (S f) =
    Request url :: Backoff (intervalMs CONFIG * (Z.of_nat i + 1) * 2)
      :: failedAttempts CONFIG url (S i) f.
Proof.
  unfold failedAttempts. cbn [seq]. rewrite bind_cons. cbn.
  do 3 f_equal. lia.
Qed.

Lemma fetchJsonWithRetry_loop_run url authToken remaining :
  forall i lastError w,
  exists w' res f new,
    fetchJsonWithRetry_loop CONFIG outside url authToken remaining i
      lastError w = (res, w')
    /\ trace w' = trace w ++ new
    /\ (forall n, (n < f)%nat ->
         exists e,
           attemptResult outside url authToken (requests w + n) = Throw e)
    /\ steps new = failedAttempts CONFIG url i f
                     ++ match res with Ok _ => [Request url] | Throw _ => [] end
    /\ requests w' = (requests w + f
                        + match res with Ok _ => 1 | Throw _ => 0 end)%nat
    /\ files w' = files w
    /\ report w' = report w
    /\ match res with
       | Ok body =>
           (f < remaining)%nat
           /\ attemptResult outside url authToken (requests w + f) = Ok body
       | Throw e =>
           f = remaining
           /\ match remaining with
              | O => e = default (Error ("Request failed: " +:+ url)) lastError
              | S r =>
                  attemptResult outside url authToken (requests w + r) = Throw e
              end
       end.
Proof.
  induction remaining as [|r IH]; intros i lastError w.
  - exists w, (Throw (default (Error ("Request failed: " +:+ url)) lastError)),
      O, []. cbn. rewrite app_nil_r.
    repeat split; try done; try (intros; lia).
  - cbn [fetchJsonWithRetry_loop]. unfold try_catch.
    destruct (fetchJsonWithRetry_try_run url authToken w)
      as (w1 & gate & Htry & Htr1 & Hgate & Hreq1 & Hfiles1 & Hrep1 & _).
    rewrite Htry.
    destruct (attemptResult outside url authToken (requests w))
      as [body|e] eqn:Hres.
    + exists w1, (Ok body), O, (gate ++ [EvFetch url (authHeader authToken)
                                 (nextAllowedAt w1 - intervalMs CONFIG)]).
      rewrite steps_app, Hgate, Nat.add_0_r. cbn.
      repeat split; try done; try (intros; lia).
    + unfold mbind at 1, M_bind at 1.
      destruct (sleep_run InRetryBackoff
                  (intervalMs CONFIG * (Z.of_nat i + 1) * 2) w1)
        as (w2 & Hsleep & Htr2 & Hreq2 & _ & Hfiles2 & Hrep2 & _).
      rewrite Hsleep.
      destruct (IH (S i) (Some e) w2)
        as (w' & res & f & new & Hloop & Htr & Hfail & Hsteps & Hreq & Hfiles
            & Hrep & Hend).
      rewrite Hloop.
      exists w', res, (S f),
        (gate ++ [EvFetch url (authHeader authToken)
                    (nextAllowedAt w1 - intervalMs CONFIG)]
         ++ [EvSleep InRetryBackoff (intervalMs CONFIG * (Z.of_nat i + 1) * 2)]
         ++ new).
      split; [done|]. split.
      { rewrite Htr, Htr2, Htr1. by rewrite <- !app_assoc. }
      split.
      { intros [|n] Hn.
        - rewrite Nat.add_0_r. eauto.
        - destruct (Hfail n) as [e' He']; [lia|].
          exists e'. rewrite <- He'. f_equal. lia. }
      split.
      { rewrite !steps_app, Hgate, Hsteps, failedAttempts_S. done. }
      split; [lia|]. split; [congruence|]. split; [congruence|].
      destruct res as [body|e'].
      * destruct Hend as [Hlt Hbody]. split; [lia|].
        rewrite <- Hbody. f_equal. lia.
      * destruct Hend as [-> Hlast]. split; [done|].
        destruct r as [|r'].
        -- cbn in Hlast. subst e'. by rewrite Nat.add_0_r.
        -- rewrite <- Hlast. f_equal. lia.
Qed.

(** C6: one call of [fetchJsonWithRetry] makes [f] failed attempts and
    then either a successful one or none, [f + 1 <= retries] in the
    first case and [f = retries] in the second.  Every failed attempt
    [n] (counted from 1) is followed, before anything else the call
    requests, by a sleep of [intervalMs * n * 2].  The call returns the
    body parsed by its first successful attempt; when every attempt
    fails it throws the error of the last one. *)
Theorem fetchJsonWithRetry_retries (url : string) (authToken : option string)
    (w : World) :
  exists (w' : World) (res : Result value) (f : nat) (new : list Event),
    fetchJsonWithRetry CONFIG outside url authToken w = (res, w')
    /\ trace w' = trace w ++ new
    /\ (forall n, (n < f)%nat ->
         exists e,
           attemptResult outside url authToken (requests w + n) = Throw e)
    /\ steps new = failedAttempts CONFIG url 0 f
                     ++ match res with Ok _ => [Request url] | Throw _ => [] end
    /\ (requests w' - requests w <= retries CONFIG)%nat
    /\ match res with
       | Ok body =>
           (f < retries CONFIG)%nat
           /\ requests w' = (requests w + f + 1)%nat
           /\ attemptResult outside url authToken (requests w + f) = Ok body
       | Throw e =>
           f = retries CONFIG
           /\ requests w' = (requests w + f)%nat
           /\ match retries CONFIG with
              | O => e = Error ("Request failed: " +:+ url)
              | S r =>
                  attemptResult outside url authToken (requests w + r) = Throw e
              end
       end.
Proof.
  unfold fetchJsonWithRetry.
  destruct (fetchJsonWithRetry_loop_run url authToken (retries CONFIG) 0 None w)
    as (w' & res & f & new & Hloop & Htr & Hfail & Hsteps & Hreq & _ & _ & Hend).
  exists w', res, f, new.
  do 4 (split; [done|]).
  destruct res as [body|e].
  - destruct Hend as [Hlt Hbody]. split; [lia|]. split; [done|].
    split; [lia|done].
  - destruct Hend as [-> Hlast]. split; [lia|]. split; [done|].
    split; [lia|]. by destruct (retries CONFIG).
Qed.

End Retry.

(** ** The rate gate *)

Section Gate.
Context {E : Engine} (CONFIG : Config) (outside : Outside).

Lemma issues_app tr1 tr2 : issues (tr1 ++ tr2) = issues tr1 ++ issues tr2.
Proof. apply omap_app. Qed.

Lemma spaced_snoc gap ts t :
  spaced gap ts ->
  (forall t0, last ts = Some t0 -> t0 + gap <= t) ->
  spaced gap (ts ++ [t]).
Proof.
  induction ts as [|a [|b ts] IH]; intros Hsp Hlast; cbn.
  - done.
  - split; [|done]. by apply Hlast.
  - destruct Hsp as [Hab Hsp]. split; [done|].
    apply IH; [done|]. intros t0 Ht0. by apply Hlast.
Qed.

Lemma gate_inv_view w w' :
  gate_view w' = gate_view w -> gate_inv CONFIG w -> gate_inv CONFIG w'.
Proof.
  unfold gate_view, gate_inv. intros [= Hi Hn]. by rewrite Hi, Hn.
Qed.

Lemma quiet_preserves {A} (m : M A) : quiet m -> preserves (gate_inv CONFIG) m.
Proof. intros Hq w. apply gate_inv_view, Hq. Qed.

Lemma keeps_ret {A V} (view : World -> V) (a : A) : keeps view (mret a).
Proof. done. Qed.

Lemma keeps_throw {A V} (view : World -> V) e : keeps view (@throw A e).
Proof. done. Qed.

Lemma keeps_lift {A V} (view : World -> V) (r : Result A) : keeps view (lift r).
Proof. done. Qed.

Lemma keeps_get_world {V} (view : World -> V) : keeps view get_world.
Proof. done. Qed.

Lemma keeps_modify {V} (view : World -> V) f :
  (forall w, view (f w) = view w) -> keeps view (modify f).
Proof. intros Hf w. apply Hf. Qed.

Lemma keeps_bind {A B V} (view : World -> V) (m : M A) (f : A -> M B) :
  keeps view m -> (forall a, keeps view (f a)) -> keeps view (m ≫= f).
Proof.
  intros Hm Hf w. unfold mbind, M_bind. specialize (Hm w).
  destruct (m w) as [[a|e] w1]; cbn in *; [|done].
  by rewrite Hf.
Qed.

Lemma keeps_try_catch {A V} (view : World -> V) (m : M A) (h : JsError -> M A) :
  keeps view m -> (forall e, keeps view (h e)) -> keeps view (try_catch m h).
Proof.
  intros Hm Hh w. unfold try_catch. specialize (Hm w).
  destruct (m w) as [[a|e] w1]; cbn in *; [done|].
  by rewrite Hh.
Qed.

Lemma keeps_Date_now {V} (view : World -> V) : keeps view Date_now.
Proof. done. Qed.

Lemma keeps_now_toISOString {V} (view : World -> V) : keeps view now_toISOString.
Proof. done. Qed.

Lemma quiet_ret {A} (a : A) : quiet (mret a).
Proof. done. Qed.

Lemma quiet_throw {A} e : quiet (@throw A e).
Proof. done. Qed.

Lemma quiet_lift {A} (r : Result A) : quiet (lift r).
Proof. done. Qed.

Lemma quiet_get_world : quiet get_world.
Proof. done. Qed.

Lemma preserves_bind {A B} P (m : M A) (f : A -> M B) :
  preserves P m -> (forall a, preserves P (f a)) -> preserves P (m ≫= f).
Proof.
  intros Hm Hf w Hw. unfold mbind, M_bind. specialize (Hm w Hw).
  destruct (m w) as [[a|e] w1]; cbn in *; [|done].
  by apply Hf.
Qed.

Lemma preserves_try_catch {A} P (m : M A) (h : JsError -> M A) :
  preserves P m -> (forall e, preserves P (h e)) -> preserves P (try_catch m h).
Proof.
  intros Hm Hh w Hw. unfold try_catch. specialize (Hm w Hw).
  destruct (m w) as [[a|e] w1]; cbn in *; [done|].
  by apply Hh.
Qed.

Lemma quiet_suspend : quiet (suspend outside).
Proof. done. Qed.

Lemma quiet_sleep site ms : quiet (sleep outside site ms).
Proof.
  intros w. unfold gate_view.
  destruct (sleep_run outside site ms w) as (w' & -> & Htr & _ & Hn & _).
  cbn. by rewrite Htr, Hn, issues_app, app_nil_r.
Qed.

Lemma quiet_console_error line : quiet (console_error line).
Proof.
  intros w. unfold gate_view, console_error, modify. cbn.
  by rewrite issues_app, app_nil_r.
Qed.

Lemma quiet_console_log line : quiet (console_log line).
Proof.
  intros w. unfold gate_view, console_log, modify. cbn.
  by rewrite issues_app, app_nil_r.
Qed.

Lemma quiet_update_report f : quiet (update_report f).
Proof. done. Qed.

Lemma quiet_Date_now : quiet Date_now.
Proof. done. Qed.

Lemma quiet_now_toISOString : quiet now_toISOString.
Proof. done. Qed.

Lemma quiet_readJson file fallback : quiet (readJson outside file fallback).
Proof. done. Qed.

Lemma quiet_writeJsonAtomic file data : quiet (writeJsonAtomic outside file data).
Proof.
  intros w. unfold writeJsonAtomic, gate_view.
  destruct (disk outside (writes w) file) as [|e []]; cbn;
    by rewrite issues_app, app_nil_r.
Qed.

Lemma quiet_ensureDirs dirs : quiet (ensureDirs outside dirs).
Proof.
  intros w. unfold ensureDirs.
  by destruct (disk outside (writes w) _).
Qed.

End Gate.

Create HintDb gate discriminated.

#[local] Hint Resolve quiet_ret quiet_throw quiet_lift quiet_get_world
  quiet_suspend quiet_sleep quiet_console_error quiet_console_log
  quiet_update_report
  quiet_Date_now quiet_now_toISOString quiet_readJson quiet_writeJsonAtomic
  quiet_ensureDirs : gate.

(** Walks through a monadic program, leaving the calls that are not
    plainly quiet. *)
Ltac gate_step :=
  lazymatch goal with
  | |- preserves _ (mbind _ _) => apply preserves_bind; [|intros ?]
  | |- preserves _ (try_catch _ _) => apply preserves_try_catch; [|intros ?]
  | |- preserves _ (if ?b then _ else _) => destruct b
  | |- preserves _ (match ?x with _ => _ end) => destruct x
  | |- preserves _ _ =>
      first [ solve [eauto with gate]
            | apply quiet_preserves; solve [eauto with gate] ]
  end.

Ltac gate := repeat gate_step.

Section GateRun.
Context {E : Engine} (CONFIG : Config) (outside : Outside).

#[local] Abbreviation keeps_gate := (preserves (gate_inv CONFIG)).

Lemma gate_fetchJsonWithRetry_try url authToken :
  keeps_gate (fetchJsonWithRetry_try CONFIG outside url authToken).
Proof.
  intros w [Hsp Hlast].
  destruct (fetchJsonWithRetry_try_run CONFIG outside url authToken w)
    as (w' & gate & -> & Htr & _ & _ & _ & _ & Hle & Hgate).
  cbn. unfold gate_inv. rewrite Htr, !issues_app, Hgate. cbn.
  split.
  - apply spaced_snoc; [done|]. intros t0 Ht0. specialize (Hlast t0 Ht0). lia.
  - intros t. rewrite last_snoc. intros [= <-]. lia.
Qed.

Lemma gate_fetchJsonWithRetry_loop url authToken remaining :
  forall i lastError,
    keeps_gate (fetchJsonWithRetry_loop CONFIG outside url authToken
                  remaining i lastError).
Proof.
  induction remaining as [|r IH]; intros i lastError; cbn.
  - gate.
  - apply preserves_try_catch; [apply gate_fetchJsonWithRetry_try|].
    intros e. apply preserves_bind; [|intros _; apply IH].
    apply quiet_preserves. auto with gate.
Qed.

Lemma gate_fetchJsonWithRetry url authToken :
  keeps_gate (fetchJsonWithRetry CONFIG outside url authToken).
Proof. apply gate_fetchJsonWithRetry_loop. Qed.

Hint Resolve gate_fetchJsonWithRetry : gate.

Lemma gate_fetchTopic topicId : keeps_gate (fetchTopic CONFIG outside topicId).
Proof. unfold fetchTopic. gate. Qed.

Lemma gate_fetchReplies_pages topicId token remaining :
  forall p all,
    keeps_gate (fetchReplies_pages CONFIG outside topicId token remaining p all).
Proof.
  induction remaining as [|r IH]; intros p all; cbn; [gate|].
  apply preserves_bind; [auto with gate|]. intros page.
  repeat case_match; gate; apply IH.
Qed.

Hint Resolve gate_fetchTopic gate_fetchReplies_pages : gate.

Lemma gate_fetchReplies topicId : keeps_gate (fetchReplies CONFIG outside topicId).
Proof. unfold fetchReplies. gate. Qed.

Hint Resolve gate_fetchReplies : gate.

Lemma gate_fetchAndPersistList name url filePath :
  keeps_gate (fetchAndPersistList CONFIG outside name url filePath).
Proof. unfold fetchAndPersistList. gate. Qed.

Lemma gate_updateHotPool currentHot :
  keeps_gate (updateHotPool CONFIG outside currentHot).
Proof. unfold updateHotPool. gate. Qed.

Lemma gate_main_topic latest hot now ttlMs topicId :
  keeps_gate (main_topic CONFIG outside latest hot now ttlMs topicId).
Proof.
  unfold main_topic, main_topic_try, main_topic_catch, main_topic_refresh,
    main_topic_replies, main_replies_fetch.
  gate.
Qed.

Lemma gate_for_of {A} (xs : list A) (body : A -> M unit) :
  (forall x, keeps_gate (body x)) -> keeps_gate (for_of xs body).
Proof.
  intros Hbody. induction xs as [|x xs IH]; cbn; [gate|].
  apply preserves_bind; [apply Hbody|intros _; apply IH].
Qed.

Hint Resolve gate_fetchAndPersistList gate_updateHotPool gate_main_topic : gate.

Lemma gate_main : keeps_gate (main CONFIG outside).
Proof.
  unfold main, main_topics. gate.
  apply gate_for_of. auto with gate.
Qed.

Lemma waitRateLimit_run w :
  exists w1,
    waitRateLimit CONFIG outside w = (Ok tt, w1)
    /\ trace w1 = trace w ++ (if clock w <? nextAllowedAt w
                              then [EvSleep InWaitRateLimit
                                      (nextAllowedAt w - clock w)]
                              else [])
    /\ clock w + Z.max 0 (nextAllowedAt w - clock w) <= clock w1
    /\ nextAllowedAt w1 = clock w1 + intervalMs CONFIG.
Proof.
  unfold waitRateLimit, sleep, suspend.
  unfold mbind, M_bind, Date_now, get_world, modify, mret, M_ret. cbn.
  destruct (clock w <? nextAllowedAt w) eqn:Hlt; cbn;
    (eexists; split; [reflexivity|]); cbn; rewrite ?app_nil_r;
    repeat split; lia.
Qed.


End GateRun.



(** ** Frames: what the parts of a run leave alone *)

Create HintDb frame discriminated.

#[local] Hint Resolve keeps_ret keeps_throw keeps_lift keeps_get_world
  keeps_Date_now keeps_now_toISOString : frame.

Ltac frame_step :=
  lazymatch goal with
  | |- keeps _ (mbind _ _) => apply keeps_bind; [|intros ?]
  | |- keeps _ (try_catch _ _) => apply keeps_try_catch; [|intros ?]
  | |- keeps _ (if ?b then _ else _) => destruct b
  | |- keeps _ (match ?x with _ => _ end) => destruct x
  | |- keeps _ (modify _) => apply keeps_modify; intros ?; reflexivity
  | |- keeps _ _ => solve [eauto with frame]
  end.

Ltac frame := repeat frame_step.

Section Frames.
Context {E : Engine} (CONFIG : Config) (outside : Outside).

Lemma keeps_report_suspend : keeps report (suspend outside).
Proof. unfold suspend. frame. Qed.

Lemma keeps_files_suspend : keeps files (suspend outside).
Proof. unfold suspend. frame. Qed.

Hint Resolve keeps_report_suspend keeps_files_suspend : frame.

Lemma keeps_report_sleep site ms : keeps report (sleep outside site ms).
Proof. unfold sleep. frame. Qed.

Lemma keeps_files_console_error line : keeps files (console_error line).
Proof. unfold console_error. frame. Qed.

Lemma keeps_report_console_error line : keeps report (console_error line).
Proof. unfold console_error. frame. Qed.

Lemma keeps_files_update_report f : keeps files (update_report f).
Proof. unfold update_report. frame. Qed.

Lemma keeps_report_readJson file fallback :
  keeps report (readJson outside file fallback).
Proof. unfold readJson. frame. Qed.

Lemma keeps_files_readJson file fallback :
  keeps files (readJson outside file fallback).
Proof. unfold readJson. frame. Qed.

Lemma keeps_report_writeJsonAtomic file data :
  keeps report (writeJsonAtomic outside file data).
Proof.
  intros w. unfold writeJsonAtomic.
  by destruct (disk outside (writes w) file) as [|e []].
Qed.

Lemma keeps_report_fetchJsonWithRetry url authToken :
  keeps report (fetchJsonWithRetry CONFIG outside url authToken).
Proof.
  intros w. unfold fetchJsonWithRetry.
  destruct (fetchJsonWithRetry_loop_run CONFIG outside url authToken
              (retries CONFIG) 0 None w)
    as (w' & res & f & new & -> & _ & _ & _ & _ & _ & Hrep & _).
  done.
Qed.

Lemma keeps_files_fetchJsonWithRetry url authToken :
  keeps files (fetchJsonWithRetry CONFIG outside url authToken).
Proof.
  intros w. unfold fetchJsonWithRetry.
  destruct (fetchJsonWithRetry_loop_run CONFIG outside url authToken
              (retries CONFIG) 0 None w)
    as (w' & res & f & new & -> & _ & _ & _ & _ & Hfiles & _).
  done.
Qed.

Hint Resolve keeps_report_sleep keeps_files_console_error
  keeps_report_console_error keeps_files_update_report keeps_report_readJson
  keeps_files_readJson keeps_report_writeJsonAtomic
  keeps_report_fetchJsonWithRetry keeps_files_fetchJsonWithRetry : frame.

Lemma keeps_report_fetchTopic topicId :
  keeps report (fetchTopic CONFIG outside topicId).
Proof. unfold fetchTopic. frame. Qed.

Lemma keeps_report_fetchReplies_pages topicId token remaining :
  forall p all,
    keeps report
      (fetchReplies_pages CONFIG outside topicId token remaining p all).
Proof.
  induction remaining as [|r IH]; intros p all; cbn; [frame|].
  apply keeps_bind; [auto with frame|]. intros page.
  repeat case_match; frame; apply IH.
Qed.

Hint Resolve keeps_report_fetchTopic keeps_report_fetchReplies_pages : frame.

Lemma keeps_report_fetchReplies topicId :
  keeps report (fetchReplies CONFIG outside topicId).
Proof. unfold fetchReplies. frame. Qed.

(** [readJson] answers with the stored document, or the fallback. *)
Lemma readJson_run file fallback w :
  exists w',
    readJson outside file fallback w = (Ok (default fallback (files w !! file)), w')
    /\ files w' = files w /\ report w' = report w.
Proof. eexists. split; [reflexivity|]. done. Qed.

End Frames.

#[local] Hint Resolve keeps_report_suspend keeps_files_suspend
  keeps_report_sleep keeps_files_console_error
  keeps_report_console_error keeps_files_update_report keeps_report_readJson
  keeps_files_readJson keeps_report_writeJsonAtomic
  keeps_report_fetchJsonWithRetry keeps_files_fetchJsonWithRetry
  keeps_report_fetchTopic keeps_report_fetchReplies_pages
  keeps_report_fetchReplies : frame.

(** ** List snapshots: fallback on failure *)

Section ListFallback.
Context {E : Engine} (CONFIG : Config) (outside : Outside).


End ListFallback.

(** ** Replies: when they are fetched again, and the partial flag *)

Section Replies.
Context {E : Engine} (CONFIG : Config) (outside : Outside).

(** Whatever [topic] is once the refresh-or-skip branch is through, it
    is truthy, and the run's count of refreshed topics has grown
    exactly if the topic was fetched. *)
Lemma main_topic_refresh_Ok topicId topicFile existingTopicDoc listSnapshot
    now ttlMs w topic w1 :
  let shouldRefreshTopic :=
    decideRefreshTopic existingTopicDoc listSnapshot now ttlMs in
  main_topic_refresh CONFIG outside topicId topicFile existingTopicDoc
    listSnapshot shouldRefreshTopic w = (Ok topic, w1) ->
  ToBoolean topic = true
  /\ refreshed (report w1)
       = refreshed (report w) + (if shouldRefreshTopic then 1 else 0).
Proof.
  intros shouldRefreshTopic. unfold main_topic_refresh.
  destruct shouldRefreshTopic eqn:Hshould.
  - intros (fetched & w2 & Hfetch & Hrest)%bind_Ok_inv.
    pose proof (keeps_report_fetchTopic CONFIG outside topicId w) as Hrep2.
    rewrite Hfetch in Hrep2. cbn [snd] in Hrep2.
    destruct (ToBoolean fetched) eqn:Htruthy; cbn [negb] in Hrest; [|done].
    apply bind_Ok_inv in Hrest as (fetched_at & w3 & [= <- <-] & Hrest).
    apply bind_Ok_inv in Hrest as ([] & w4 & Hwrite & Hrest).
    pose proof (keeps_report_writeJsonAtomic outside topicFile
                  (topicDoc topicId fetched (Date_toISOString (clock w2))
                     listSnapshot) w2) as Hrep4.
    rewrite Hwrite in Hrep4. cbn [snd] in Hrep4.
    cbn in Hrest. injection Hrest as <- <-. cbn.
    by rewrite Hrep4, Hrep2.
  - cbn. intros [= <- <-]. cbn. split; [|lia].
    subst shouldRefreshTopic.
    rewrite decideRefreshTopic_unfold in Hshould.
    rewrite !orb_false_iff in Hshould.
    destruct Hshould as [[[Hlacks _] _] _]. unfold lacksTopic in Hlacks.
    apply negb_false_iff in Hlacks.
    unfold coalesce. by destruct (existingTopicDoc?."topic").
Qed.

(** C5 (as amended): in the per-topic [try] block, when the
    refresh-or-skip branch throws, nothing more is done for the topic;
    when it yields [topic] (the topic was refreshed exactly if the
    policy said so), the replies are fetched and written again exactly
    when the topic was refreshed this run, or there is no replies
    document, or its [meta.reply_count] differs numerically from
    [topic.replies]; else the block ends there, the world untouched. *)
Theorem replies_refetched_when_due
    (topicId : JsNum) (topicFile repliesFile : string)
    (existingTopicDoc existingRepliesDoc : value)
    (listSnapshot : list (string * value)) (now ttlMs : JsNum) (w : World) :
  let shouldRefreshTopic :=
    decideRefreshTopic existingTopicDoc listSnapshot now ttlMs in
  let block :=
    main_topic_try CONFIG outside topicId topicFile repliesFile
      existingTopicDoc existingRepliesDoc listSnapshot shouldRefreshTopic in
  match main_topic_refresh CONFIG outside topicId topicFile existingTopicDoc
          listSnapshot shouldRefreshTopic w with
  | (Throw e, w1) => block w = (Throw e, w1)
  | (Ok topic, w1) =>
      refreshed (report w1)
        = refreshed (report w) + (if shouldRefreshTopic then 1 else 0)
      /\ block w =
           if repliesRefetchDue shouldRefreshTopic existingRepliesDoc topic
           then main_replies_fetch CONFIG outside topicId repliesFile topic w1
           else (Ok tt, w1)
  end.
Proof.
  intros shouldRefreshTopic block. subst block. unfold main_topic_try.
  rewrite bind_run.
  destruct (main_topic_refresh _ _ _ _ _ _ _ w) as [[topic|e] w1] eqn:Hrefresh;
    [|done].
  apply main_topic_refresh_Ok in Hrefresh as [Htruthy Hcount].
  split; [done|].
  unfold main_topic_replies, repliesRefetchDue, shouldRefreshReplies.
  rewrite Htruthy, andb_true_r.
  by destruct (_ || _ || _).
Qed.


End Replies.

(** ** The per-topic loop: failures stay with their topic *)

Section Isolation.
Context {E : Engine} (CONFIG : Config) (outside : Outside).

Lemma keeps_failures_report {A} (m : M A) : keeps report m -> keeps failures m.
Proof. intros Hm w. unfold failures. by rewrite Hm. Qed.

Lemma keeps_failures_update_report f :
  (forall r, failed (f r) = failed r) -> keeps failures (update_report f).
Proof. intros Hf w. unfold failures. cbn. apply Hf. Qed.

(** The [try] block records no failure itself. *)
Lemma keeps_failures_main_topic_try topicId topicFile repliesFile
    existingTopicDoc existingRepliesDoc listSnapshot shouldRefreshTopic :
  keeps failures
    (main_topic_try CONFIG outside topicId topicFile repliesFile
       existingTopicDoc existingRepliesDoc listSnapshot shouldRefreshTopic).
Proof.
  unfold main_topic_try, main_topic_refresh, main_topic_replies,
    main_replies_fetch.
  repeat first
    [ apply keeps_failures_update_report; reflexivity
    | apply keeps_failures_report; solve [eauto with frame]
    | frame_step ].
Qed.

Lemma main_topic_catch_run topicId e w :
  exists w',
    main_topic_catch topicId e w = (Ok tt, w')
    /\ failures w' = failures w ++ [{| topic_id := topicId; error := message e |}]
    /\ refreshed (report w') = refreshed (report w)
    /\ skipped (report w') = skipped (report w)
    /\ files w' = files w.
Proof. eexists. split; [reflexivity|]. done. Qed.

Lemma main_topic_run latest hot now ttlMs xs ys topicId w :
  spread (latest ?? VArr []) = Ok xs ->
  spread (hot ?? VArr []) = Ok ys ->
  exists w',
    main_topic CONFIG outside latest hot now ttlMs topicId w = (Ok tt, w')
    /\ (failures w' = failures w
        \/ exists e,
             failures w' = failures w ++ [{| topic_id := topicId; error := e |}]).
Proof.
  intros Hlatest Hhot. unfold main_topic.
  set (topicFile := (TOPICS_DIR +:+ _)%string).
  set (repliesFile := (REPLIES_DIR +:+ _)%string).
  destruct (readJson_run outside topicFile VNull w) as (w1 & Hr1 & _ & Hrep1).
  destruct (readJson_run outside repliesFile VNull w1) as (w2 & Hr2 & _ & Hrep2).
  rewrite bind_run, Hr1, bind_run, Hr2, bind_run.
  unfold snapshotFromLists. rewrite Hlatest, Hhot.
  cbn [mbind Result_bind lift mret Result_ret].
  unfold try_catch.
  match goal with |- context [match ?body w2 with _ => _ end] =>
    pose proof (keeps_failures_main_topic_try _ _ _ _ _ _ _ w2 : failures (body w2).2 = _)
      as Hkeep;
    destruct (body w2) as [[[]|e] w3] end; cbn [snd] in Hkeep.
  - eexists. split; [reflexivity|]. left.
    unfold failures in *. by rewrite Hkeep, Hrep2, Hrep1.
  - destruct (main_topic_catch_run topicId e w3) as (w4 & -> & Hfail & _).
    eexists. split; [reflexivity|]. right. exists (message e).
    rewrite Hfail. unfold failures in *. by rewrite Hkeep, Hrep2, Hrep1.
Qed.


End Isolation.

(** ** The theorems at concrete inputs *)

(** C1, witness: topic 5 was fetched two hours ago, the TTL is 24
    hours and its snapshot has not changed: no refresh. *)
Lemma decideRefreshTopic_policy_witness :
  decideRefreshTopic (E := Reference.engine) Example.doc5 Example.snapshot5
    (Num Example.now) (Num (24 * 60 * 60 * 1000)) = false.
Proof.
  apply (proj2 (proj2 (decideRefreshTopic_policy (E := Reference.engine)
           Example.doc5 Example.snapshot5 (Num Example.now)
           (Num (24 * 60 * 60 * 1000)))) Example.fetched);
    vm_compute; reflexivity.
Defined.

(** C2, witness: the two entries merged with an empty fresh list. *)
Lemma hotPoolNext_unique_capped_witness :
  NoDup ((fun item => Number (E := Reference.engine) item?."id")
           <$> [Example.touched10])
  /\ NoDup ((fun item => item?."id") <$> [Example.touched10])
  /\ Z.of_nat (length [Example.touched10]) <= Z.max 1 (hotPoolLimit CONFIG_default).
Proof.
  apply (proj1 (proj2 (hotPoolNext_unique_capped (E := Reference.engine)
           CONFIG_default Example.now))
           (VArr [Example.touched40; Example.touched10]) (VArr [])).
  vm_compute. reflexivity.
Defined.

(** C3, witness: of the entries touched 40 and 10 days ago the second
    survives a 30 day TTL, and is within it. *)
Lemma hotPoolPruned_ttl_witness :
  Example.now - (Example.now / 1000 - 10 * Example.day) * 1000
    <= hotPoolTtlDays CONFIG_default * 24 * 60 * 60 * 1000.
Proof.
  apply (proj1 (hotPoolPruned_ttl (E := Reference.engine) CONFIG_default
           Example.now [Example.touched40; Example.touched10])
           Example.touched10).
  - apply list_elem_of_In. vm_compute. left. reflexivity.
  - vm_compute. reflexivity.
  - vm_compute. reflexivity.
Defined.



(** C5, counterexample: topic 7 has neither a topic document nor a
    replies document and the server fails throughout.  The topic is not
    refreshed and recorded as failed; although no replies document
    exists, no request for its replies is made and none is written. *)
Lemma replies_not_fetched_after_failed_refresh :
  files Example.empty !! "data/replies/7.json"%string = None
  /\ repliesRefetchDue (E := Reference.engine) false VNull VNull = true
  /\ Example.topic7.1 = Ok tt
  /\ refreshed (report Example.topic7.2) = refreshed (report Example.empty)
  /\ topic_id <$> failures Example.topic7.2 = [Num 7]
  /\ requested (trace Example.topic7.2)
       = [endpoints.topicById (Num 7); endpoints.topicById (Num 7);
          endpoints.topicById (Num 7)]
  /\ files Example.topic7.2 !! "data/replies/7.json"%string = None.
Proof. vm_compute. repeat split. Qed.

(** ** Candidate ids, and the scenarios of the specification *)

Section Scenarios.
Context {E : Engine}.

(** Candidate ids come out without repetition. *)
Lemma dedupeTopicIds_NoDup (items : list value) : NoDup (dedupeTopicIds items).
Proof.
  unfold dedupeTopicIds.
  assert (Hgen : forall set, NoDup set ->
    NoDup (foldl (fun set item =>
                    let id := Number item?."id" in
                    if isFinite id && js_gt id (Num 0) then Set_add set id
                    else set) set items)).
  { induction items as [|item items IH]; intros set Hset; cbn [foldl]; [done|].
    apply IH. cbv zeta. destruct (isFinite _ && js_gt _ _); [|done].
    unfold Set_add. case_bool_decide as Hin; [done|].
    apply NoDup_app. split; [done|]. split; [|apply NoDup_singleton].
    by intros x Hx ->%list_elem_of_singleton. }
  apply Hgen. constructor.
Qed.

End Scenarios.

(** An empty store and a server with one latest topic: one candidate,
    one request for the topic and one for its replies, one topic
    refreshed, and the state file names the candidate. *)
Example first_run :
  FirstRun.run.1 = Ok tt
  /\ requested (trace FirstRun.run.2)
       = [endpoints.latest; endpoints.hot; endpoints.nodes;
          endpoints.topicById (Num 1); endpoints.repliesByTopicId (Num 1)]
  /\ candidates (report FirstRun.run.2) = 1
  /\ refreshed (report FirstRun.run.2) = 1
  /\ failures FirstRun.run.2 = []
  /\ (default VNull (files FirstRun.run.2 !! STATE_FILE))?."candidate_topic_ids"
       = VArr [num 1]
  /\ (default VNull (files FirstRun.run.2 !! "data/replies/1.json"%string))
       ?."meta"?."partial" = VBool false.
Proof. vm_compute. repeat split. Qed.

(** A second run over the files the first one left, two hours later:
    the topic is skipped, and only the three lists are requested. *)
Example second_run :
  let again :=
    main (E := Reference.engine) CONFIG_default
      (Reference.steady FirstRun.answer)
      (Reference.world0 (Example.now + 2 * 60 * 60 * 1000)
         (files FirstRun.run.2)) in
  again.1 = Ok tt
  /\ requested (trace again.2)
       = [endpoints.latest; endpoints.hot; endpoints.nodes]
  /\ refreshed (report again.2) = 0
  /\ skipped (report again.2) = 1.
Proof. vm_compute. repeat split. Qed.

(** A 30 day TTL, entries touched 40 and 10 days ago, an empty fresh
    list: only the second is kept. *)
Example hot_pool_ttl_scenario :
  hotPoolNext (E := Reference.engine) CONFIG_default Example.now
    (VArr [Example.touched40; Example.touched10]) (VArr [])
  = Ok [Example.touched10].
Proof. vm_compute. reflexivity. Qed.

(** * Further properties of the fetch script *)

(** ** Candidate ids *)

Section Candidates.
Context {E : Engine}.

Lemma dedupeTopicIds_foldl items :
  dedupeTopicIds items = foldl dedupeTopicIds_step [] items.
Proof. reflexivity. Qed.

Lemma valid_id_positive (id : JsNum) :
  isFinite id && js_gt id (Num 0) = true <-> exists z, id = Num z /\ 0 < z.
Proof.
  destruct id as [| | |z]; cbn; split; try done; try (by intros (z & ? & ?)).
  - intros Hz%Z.ltb_lt. eauto.
  - intros (z' & [= <-] & Hz). by apply Z.ltb_lt.
Qed.

Lemma elem_of_Set_add set k id : id ∈ Set_add set k <-> id ∈ set \/ id = k.
Proof.
  unfold Set_add. case_bool_decide as Hin.
  - split; [by left|]. by intros [?| ->].
  - rewrite elem_of_app, list_elem_of_singleton. done.
Qed.

Lemma dedupeTopicIds_snoc items item :
  dedupeTopicIds (items ++ [item])
    = dedupeTopicIds_step (dedupeTopicIds items) item.
Proof. rewrite !dedupeTopicIds_foldl. apply foldl_snoc. Qed.

(** X1: the candidate ids are the numeric ids of the items that have a
    finite positive one, each once, in the order of their first
    occurrence: scanning [xs] and then [ys] gives the ids of [xs]
    followed by those ids of [ys] that [xs] did not have. *)
Theorem dedupeTopicIds_first_occurrences (xs ys : list value) :
  NoDup (dedupeTopicIds xs)
  /\ (forall id,
        id ∈ dedupeTopicIds xs <->
        exists item z,
          item ∈ xs /\ Number item?."id" = id /\ id = Num z /\ 0 < z)
  /\ dedupeTopicIds (xs ++ ys)
       = dedupeTopicIds xs
           ++ filter (fun id => id ∉ dedupeTopicIds xs) (dedupeTopicIds ys).
Proof.
  split; [apply dedupeTopicIds_NoDup|]. split.
  - induction xs as [|item xs IH] using rev_ind; intros id.
    + split; [by intros ?%elem_of_nil|]. by intros (? & ? & ?%elem_of_nil & _).
    + rewrite dedupeTopicIds_snoc. unfold dedupeTopicIds_step. cbv zeta.
      destruct (isFinite _ && js_gt _ _) eqn:Hvalid.
      * rewrite elem_of_Set_add, IH. apply valid_id_positive in Hvalid.
        split.
        -- intros [(it & z & Hin & Hid & Hz)| ->].
           ++ exists it, z. rewrite elem_of_app. eauto.
           ++ destruct Hvalid as (z & Hz & Hpos). exists item, z.
              rewrite elem_of_app, list_elem_of_singleton. eauto.
        -- intros (it & z & [Hin|Hit%list_elem_of_singleton]%elem_of_app
                   & Hid & Hz); [left; eauto|]. subst it. by right.
      * rewrite IH. split.
        -- intros (it & z & Hin & Hid & Hz). exists it, z.
           rewrite elem_of_app. eauto.
        -- intros (it & z & [Hin|Hit%list_elem_of_singleton]%elem_of_app
                   & Hid & Hz & Hpos); [by exists it, z|].
           subst it.
           assert (Hv : isFinite (Number item?."id")
                        && js_gt (Number item?."id") (Num 0) = true).
           { apply valid_id_positive. exists z. by rewrite Hid. }
           congruence.
  - induction ys as [|item ys IH] using rev_ind.
    + by rewrite !app_nil_r.
    + rewrite app_assoc, !dedupeTopicIds_snoc, IH.
      unfold dedupeTopicIds_step. cbv zeta.
      destruct (isFinite _ && js_gt _ _); [|done].
      set (id := Number item?."id"). unfold Set_add.
      case_bool_decide as Hin; case_bool_decide as Hin'.
      * done.
      * rewrite filter_app, filter_cons. rewrite filter_nil.
        apply elem_of_app in Hin as [Hin|Hin].
        -- rewrite decide_False by tauto. by rewrite app_nil_r.
        -- apply list_elem_of_filter in Hin as [_ ?]. done.
      * exfalso. apply Hin. apply elem_of_app. right.
        apply list_elem_of_filter. split; [|done].
        intros Hx. apply Hin. apply elem_of_app. by left.
      * rewrite filter_app, filter_cons, filter_nil.
        rewrite decide_True.
        { by rewrite app_assoc. }
        intros Hx. apply Hin. apply elem_of_app. by left.
Qed.

End Candidates.

(** ** The list snapshot of a candidate *)

Section Snapshot.
Context {E : Engine}.

Lemma Array_find_app p xs ys :
  Array_find p (xs ++ ys)
    = if existsb p xs then Array_find p xs else Array_find p ys.
Proof.
  induction xs as [|x xs IH]; cbn; [done|].
  by destruct (p x).
Qed.

Lemma Array_find_none p xs :
  existsb p xs = false -> Array_find p xs = VUndef.
Proof.
  induction xs as [|x xs IH]; cbn; [done|].
  destruct (p x); [done|]. apply IH.
Qed.

(** X2: the snapshot of a candidate always has its three fields, each
    a number, so that the refresh policy never reads a default for the
    current snapshot; it is taken from the first item of [latest], then
    of [hot], that has the candidate's numeric id, [latest] winning
    over [hot]; and a candidate that is in neither list (one kept alive
    by the hot pool only) gets the snapshot (id, 0, 0). *)
Theorem snapshotFromLists_fields (topicId : JsNum) (latest hot : list value) :
  let hasId := fun t : value => js_eq (Number t?."id") topicId in
  (exists replies last_modified,
      snapshotFromLists topicId (VArr latest) (VArr hot)
        = Ok [("id", VNum topicId); ("replies", VNum replies);
              ("last_modified", VNum last_modified)]%string
      /\ currentPair [("id", VNum topicId); ("replies", VNum replies);
                      ("last_modified", VNum last_modified)]%string
           = (replies, last_modified))
  /\ (existsb hasId latest = true ->
      snapshotFromLists topicId (VArr latest) (VArr hot)
        = snapshotFromLists topicId (VArr latest) (VArr []))
  /\ (existsb hasId (latest ++ hot) = false ->
      snapshotFromLists topicId (VArr latest) (VArr hot)
        = Ok [("id", VNum topicId); ("replies", num 0);
              ("last_modified", num 0)]%string).
Proof.
  intros hasId. split; [|split].
  - eexists _, _. split; reflexivity.
  - intros Hin. unfold snapshotFromLists. cbn.
    rewrite !Array_find_app. fold hasId. by rewrite Hin.
  - intros Hnone. unfold snapshotFromLists. cbn.
    fold hasId. by rewrite (Array_find_none _ _ Hnone).
Qed.

End Snapshot.

(** ** The merge by id *)

Section MergeFreshest.
Context {E : Engine}.

Lemma elem_of_Map_set m k v k' v' :
  NoDup m.*1 ->
  (k', v') ∈ Map_set m k v ->
  (k' = k /\ v' = v) \/ (k' <> k /\ (k', v') ∈ m).
Proof.
  induction m as [|[k0 v0] m IH]; csimpl; intros Hnd.
  - intros [= -> ->]%list_elem_of_singleton. by left.
  - apply NoDup_cons in Hnd as [Hk0 Hnd].
    destruct (decide (k = k0)) as [->|Hne].
    + intros [[= -> ->]|Hin]%elem_of_cons; [by left|].
      right. split; [|by right].
      intros ->. apply Hk0. apply list_elem_of_fmap. by exists (k0, v').
    + intros [[= -> ->]|Hin]%elem_of_cons.
      * right. split; [done|by left].
      * destruct (IH Hnd Hin) as [?|[? ?]]; [by left|].
        right. split; [done|by right].
Qed.

Lemma Map_set_elem m k v : (k, v) ∈ Map_set m k v.
Proof.
  induction m as [|[k0 v0] m IH]; cbn; [by left|].
  destruct (decide (k = k0)); [by left|by right].
Qed.

Lemma Map_set_other m k v k' v' :
  k' <> k -> (k', v') ∈ m -> (k', v') ∈ Map_set m k v.
Proof.
  intros Hne. induction m as [|[k0 v0] m IH]; cbn;
    [by intros ?%elem_of_nil|].
  intros [[= -> ->]|Hin]%elem_of_cons.
  - destruct (decide (k = k0)); [done|by left].
  - destruct (decide (k = k0)); right; [done|by apply IH].
Qed.

Lemma Map_get_elem m k v : NoDup m.*1 -> (k, v) ∈ m -> Map_get m k = v.
Proof.
  induction m as [|[k0 v0] m IH]; csimpl; intros Hnd; [by intros ?%elem_of_nil|].
  apply NoDup_cons in Hnd as [Hk0 Hnd].
  intros [[= -> ->]|Hin]%elem_of_cons.
  - by rewrite decide_True.
  - destruct (decide (k = k0)) as [->|]; [|by apply IH].
    exfalso. apply Hk0. apply list_elem_of_fmap. by exists (k0, v).
Qed.

Lemma Map_get_absent m k : k ∉ m.*1 -> Map_get m k = VUndef.
Proof.
  induction m as [|[k0 v0] m IH]; csimpl; [done|].
  intros Hk. destruct (decide (k = k0)) as [->|].
  - exfalso. apply Hk. by left.
  - apply IH. intros Hin. apply Hk. by right.
Qed.

(** Only an object has an [id] that reads as a finite number. *)
Lemma finite_id_truthy (item : value) :
  isFinite (Number item?."id") = true -> ToBoolean item = true.
Proof. by destruct item as [| | | | |xs|props]. Qed.

Lemma js_le_trans a b c :
  isFinite a = true -> isFinite b = true -> isFinite c = true ->
  js_le a b = true -> js_le b c = true -> js_le a c = true.
Proof.
  destruct a, b, c; cbn; try done. intros _ _ _.
  rewrite !Z.leb_le. lia.
Qed.

Lemma js_ge_false_le a b :
  isFinite a = true -> isFinite b = true ->
  js_ge a b = false -> js_le a b = true.
Proof.
  unfold js_ge. destruct a, b; cbn; try done. intros _ _.
  rewrite Z.leb_le, Z.leb_gt. lia.
Qed.

Lemma js_le_refl a : isFinite a = true -> js_le a a = true.
Proof. destruct a; cbn; try done. intros _. by apply Z.leb_le. Qed.

Lemma merged_from_step seen m item :
  merged_from seen m ->
  merged_from (seen ++ [item]) (mergeTopicLists_step m item).
Proof.
  intros (Hwf & Hfrom & Hkept).
  split; [by apply mergeTopicLists_step_wf|].
  assert (Hmono : forall item' z,
    item' ∈ seen -> Number item'?."id" = Num z -> 0 < z ->
    exists kept, (Num z, kept) ∈ m
      /\ ((forall i, i ∈ seen ++ [item] -> isFinite (topicFreshness i) = true) ->
          js_le (topicFreshness item') (topicFreshness kept) = true)).
  { intros item' z Hin Hid Hz.
    destruct (Hkept item' z Hin Hid Hz) as (kept & Hk & Hle).
    exists kept. split; [done|]. intros Hfin. apply Hle.
    intros i Hi. apply Hfin. apply elem_of_app. by left. }
  unfold mergeTopicLists_step. cbv zeta.
  destruct (negb (isFinite (Number item?."id"))
            || js_le (Number item?."id") (Num 0)) eqn:Hskip.
  - (* the item has no usable id: the map stays *)
    split.
    + intros k v Hin. destruct (Hfrom k v Hin) as [Hv Hk].
      split; [|done]. apply elem_of_app. by left.
    + intros item' z [Hin|Hin%list_elem_of_singleton]%elem_of_app Hid Hz.
      * by apply Hmono.
      * subst item'. rewrite Hid in Hskip. cbn in Hskip.
        apply Z.leb_le in Hskip. lia.
  - apply orb_false_iff in Hskip as [Hfinite Hpos].
    apply negb_false_iff in Hfinite.
    destruct (Number item?."id") as [| | |zid] eqn:Hid; try done.
    cbn in Hpos. apply Z.leb_gt in Hpos.
    (* the three ways the loop body can end *)
    assert (Hreplace :
      (forall i z, i ∈ seen -> Number i?."id" = Num z -> z = zid ->
         (forall j, j ∈ seen ++ [item] -> isFinite (topicFreshness j) = true) ->
         js_le (topicFreshness i) (topicFreshness item) = true) ->
      (forall k v, (k, v) ∈ Map_set m (Num zid) item ->
         v ∈ seen ++ [item] /\ exists z, k = Num z /\ 0 < z)
      /\ (forall item' z,
            item' ∈ seen ++ [item] -> Number item'?."id" = Num z -> 0 < z ->
            exists kept,
              (Num z, kept) ∈ Map_set m (Num zid) item
              /\ ((forall i, i ∈ seen ++ [item] ->
                     isFinite (topicFreshness i) = true) ->
                  js_le (topicFreshness item') (topicFreshness kept) = true))).
    { intros Hbest. split.
      - intros k v Hin.
        destruct (elem_of_Map_set _ _ _ _ _ (proj1 Hwf) Hin)
          as [[-> ->]|[Hne Hin']].
        + split; [|eauto]. apply elem_of_app. right. by left.
        + destruct (Hfrom k v Hin') as [Hv Hk].
          split; [|done]. apply elem_of_app. by left.
      - intros item' z Hin Hid' Hz.
        destruct (decide (z = zid)) as [->|Hne].
        + exists item. split; [apply Map_set_elem|]. intros Hfin.
          apply elem_of_app in Hin as [Hin|Hin%list_elem_of_singleton].
          * by apply (Hbest item' zid).
          * subst item'. apply js_le_refl, Hfin.
            apply elem_of_app. right. by left.
        + apply elem_of_app in Hin as [Hin|Hin%list_elem_of_singleton].
          * destruct (Hmono item' z Hin Hid' Hz) as (kept & Hk & Hle).
            exists kept. split; [|done].
            apply Map_set_other; [|done]. congruence.
          * subst item'. congruence. }
    destruct (decide (Num zid ∈ m.*1)) as [Hhas|Hnew].
    + apply list_elem_of_fmap in Hhas as ([k prev] & Hk & Hprev).
      cbn in Hk. subst k.
      rewrite (Map_get_elem m (Num zid) prev (proj1 Hwf) Hprev).
      destruct (Hfrom _ _ Hprev) as [Hprev_seen _].
      assert (Hprev_id : Number prev?."id" = Num zid).
      { destruct Hwf as [_ Hall]. rewrite List.Forall_forall in Hall.
        apply (Hall (Num zid, prev)). by apply list_elem_of_In. }
      rewrite finite_id_truthy by (by rewrite Hprev_id). cbn [negb].
      destruct (js_ge (topicFreshness item) (topicFreshness prev)) eqn:Hge.
      * apply Hreplace. intros i z Hi Hidi -> Hfin.
        destruct (Hkept i zid Hi Hidi Hpos) as (kept & Hk & Hle).
        rewrite <- (Map_get_elem m (Num zid) kept (proj1 Hwf) Hk) in Hle.
        rewrite (Map_get_elem m (Num zid) prev (proj1 Hwf) Hprev) in Hle.
        eapply (js_le_trans _ (topicFreshness prev)).
        -- apply Hfin. apply elem_of_app. by left.
        -- apply Hfin. apply elem_of_app. by left.
        -- apply Hfin. apply elem_of_app. right. by left.
        -- apply Hle. intros j Hj. apply Hfin. apply elem_of_app. by left.
        -- exact Hge.
      * split.
        -- intros k v Hin. destruct (Hfrom k v Hin) as [Hv Hk].
           split; [|done]. apply elem_of_app. by left.
        -- intros item' z [Hin|Hin%list_elem_of_singleton]%elem_of_app Hid' Hz.
           ++ by apply Hmono.
           ++ subst item'. assert (z = zid) as -> by congruence.
              exists prev. split; [done|]. intros Hfin.
              apply js_ge_false_le; [| |done].
              ** apply Hfin. apply elem_of_app. right. by left.
              ** apply Hfin. apply elem_of_app. by left.
    + rewrite (Map_get_absent m (Num zid) Hnew). cbn.
      apply Hreplace. intros i z Hi Hidi -> _.
      destruct (Hkept i zid Hi Hidi Hpos) as (kept & Hk & _).
      exfalso. apply Hnew. apply list_elem_of_fmap. by exists (Num zid, kept).
Qed.

Lemma merged_from_foldl items :
  merged_from items (foldl mergeTopicLists_step [] items).
Proof.
  induction items as [|item items IH] using rev_ind.
  - split; [split; constructor|].
    split; [by intros k v ?%elem_of_nil|by intros item z ?%elem_of_nil].
  - rewrite foldl_snoc. by apply merged_from_step.
Qed.

(** X3: merging two arrays never throws, and the merged list holds
    only items of the two arrays, all with a finite positive numeric
    id; it holds an entry for every such id the arrays have; and when
    every freshness score in the arrays is a finite number, the entry
    kept for an id is at least as fresh as every item with that id. *)
Theorem mergeTopicLists_freshest (a b : list value) :
  exists merged,
    mergeTopicLists (VArr a) (VArr b) = Ok merged
    /\ (forall kept,
          kept ∈ merged ->
          kept ∈ a ++ b /\ exists z, Number kept?."id" = Num z /\ 0 < z)
    /\ (forall item z,
          item ∈ a ++ b -> Number item?."id" = Num z -> 0 < z ->
          exists kept, kept ∈ merged /\ Number kept?."id" = Num z)
    /\ ((forall item, item ∈ a ++ b -> isFinite (topicFreshness item) = true) ->
        forall item z,
          item ∈ a ++ b -> Number item?."id" = Num z -> 0 < z ->
          exists kept,
            kept ∈ merged /\ Number kept?."id" = Num z
            /\ js_le (topicFreshness item) (topicFreshness kept) = true).
Proof.
  eexists. split; [reflexivity|]. cbn [coalesce nullish].
  set (m := foldl mergeTopicLists_step [] (a ++ b)).
  destruct (merged_from_foldl (a ++ b)) as (Hwf & Hfrom & Hkept). fold m in Hwf, Hfrom, Hkept.
  assert (Hid : forall k v, (k, v) ∈ m -> Number v?."id" = k).
  { intros k v Hin. destruct Hwf as [_ Hall].
    rewrite List.Forall_forall in Hall.
    apply (Hall (k, v)). by apply list_elem_of_In. }
  assert (Hsorted : forall v,
    v ∈ Array_sort (fun x y => js_sub (topicFreshness y) (topicFreshness x))
          (Map_values m) <-> exists k, (k, v) ∈ m).
  { intros v. rewrite (Array_sort_Permutation _ _). unfold Map_values.
    rewrite list_elem_of_fmap. split.
    - intros ([k v'] & -> & Hin). by exists k.
    - intros (k & Hin). by exists (k, v). }
  split; [|split].
  - intros kept (k & Hin)%Hsorted.
    destruct (Hfrom k kept Hin) as (Hseen & z & -> & Hz).
    split; [done|]. exists z. by rewrite (Hid _ _ Hin).
  - intros item z Hin Hitem Hz.
    destruct (Hkept item z Hin Hitem Hz) as (kept & Hk & _).
    exists kept. split; [apply Hsorted; eauto|by apply Hid].
  - intros Hfin item z Hin Hitem Hz.
    destruct (Hkept item z Hin Hitem Hz) as (kept & Hk & Hle).
    exists kept. split; [apply Hsorted; eauto|]. split; [by apply Hid|].
    by apply Hle.
Qed.

End MergeFreshest.

(** ** Order of the hot pool *)

Section PoolOrder.
Context {E : Engine} (CONFIG : Config).

Lemma StronglySorted_sublist {A} (R : A -> A -> Prop) (l1 l2 : list A) :
  l1 `sublist_of` l2 -> StronglySorted R l2 -> StronglySorted R l1.
Proof.
  induction 1 as [|x l1 l2 Hsub IH|x l1 l2 Hsub IH]; intros Hs.
  - constructor.
  - apply StronglySorted_cons in Hs as [Hx Hs].
    apply StronglySorted_cons. split; [|by apply IH].
    rewrite Forall_forall in Hx |- *. intros y Hy. apply Hx.
    by eapply elem_of_sublist.
  - apply StronglySorted_cons in Hs as [_ Hs]. by apply IH.
Qed.

Lemma StronglySorted_among {A} (R R' : A -> A -> Prop) (l : list A) :
  (forall x y, x ∈ l -> y ∈ l -> R x y -> R' x y) ->
  StronglySorted R l -> StronglySorted R' l.
Proof.
  induction l as [|x l IH]; intros Himpl Hs; [constructor|].
  apply StronglySorted_cons in Hs as [Hx Hs].
  apply StronglySorted_cons. split.
  - rewrite Forall_forall in Hx |- *. intros y Hy.
    apply Himpl; [by left|by right|by apply Hx].
  - apply IH; [|done]. intros a b Ha Hb. apply Himpl; by right.
Qed.

Lemma freshness_key_finite item :
  isFinite (topicFreshness item) = true ->
  topicFreshness item = Num (freshness_key item).
Proof. unfold freshness_key. by destruct (topicFreshness item). Qed.

(** X4: with an engine whose sort orders by an integer key, and
    freshness scores that are all finite numbers, the merged list and
    the hot pool are in descending order of freshness, and the cap
    cuts the stalest entries: no entry it drops is fresher than an
    entry it keeps. *)
Theorem hotPool_freshest_first (now : Z) (prevPool currentHot : list value) :
  sorts_by_key E ->
  (forall item,
      item ∈ prevPool ++ currentHot -> isFinite (topicFreshness item) = true) ->
  exists merged pool dropped,
    mergeTopicLists (VArr prevPool) (VArr currentHot) = Ok merged
    /\ hotPoolNext CONFIG now (VArr prevPool) (VArr currentHot) = Ok pool
    /\ freshest_first merged
    /\ freshest_first pool
    /\ hotPoolPruned CONFIG now merged = pool ++ dropped
    /\ (forall kept gone,
          kept ∈ pool -> gone ∈ dropped ->
          js_ge (topicFreshness kept) (topicFreshness gone) = true).
Proof.
  intros Hsort Hfin.
  set (cmp := fun x y => js_sub (topicFreshness y) (topicFreshness x)).
  set (unsorted :=
         Map_values (foldl mergeTopicLists_step [] (prevPool ++ currentHot))).
  set (merged := Array_sort cmp unsorted).
  assert (Hmerge :
    mergeTopicLists (VArr prevPool) (VArr currentHot) = Ok merged)
    by reflexivity.
  assert (Hfin' : forall x, x ∈ unsorted -> isFinite (topicFreshness x) = true).
  { intros x ([k v] & -> & Hin)%list_elem_of_fmap. apply Hfin.
    by apply (merged_from_foldl (prevPool ++ currentHot)) in Hin as [? _]. }
  assert (Hsorted : freshest_first merged).
  { unfold freshest_first.
    apply (StronglySorted_among (fun x y => freshness_key y <= freshness_key x)).
    { intros x y Hx Hy Hle. unfold js_ge.
      unfold merged in Hx, Hy.
      rewrite (Array_sort_Permutation _ _) in Hx, Hy.
      rewrite (freshness_key_finite x), (freshness_key_finite y) by auto.
      by apply Z.leb_le. }
    apply Hsort. intros x y Hx Hy. unfold cmp.
    by rewrite (freshness_key_finite x), (freshness_key_finite y) by auto. }
  set (pruned := hotPoolPruned CONFIG now merged).
  assert (Hpruned : freshest_first pruned).
  { eapply StronglySorted_sublist; [apply filter_sublist|done]. }
  assert (Hcut : exists n, hotPoolLimited CONFIG pruned = take n pruned).
  { unfold hotPoolLimited, slice0. destruct (_ <? 0); eauto. }
  destruct Hcut as [n Hcut].
  exists merged, (take n pruned), (drop n pruned).
  split; [done|]. split.
  { unfold hotPoolNext. cbn [coalesce nullish]. rewrite Hmerge. cbn.
    fold pruned. by rewrite Hcut. }
  split; [done|]. split.
  { eapply StronglySorted_sublist; [apply sublist_take|done]. }
  split; [by rewrite take_drop|].
  intros kept gone Hkept Hgone.
  unfold freshest_first in Hpruned.
  rewrite <- (take_drop n pruned) in Hpruned.
  by apply (StronglySorted_app_1_elem_of _ _ _ _ _ Hpruned).
Qed.

End PoolOrder.

Lemma insert_sorted_by_key (key : value -> Z) cmp x s :
  (forall y, y ∈ s -> cmp x y = Num (key y - key x)) ->
  StronglySorted (fun a b => key b <= key a) s ->
  StronglySorted (fun a b => key b <= key a) (Reference.insert_sorted cmp x s)
  /\ (forall z, z ∈ Reference.insert_sorted cmp x s <-> z = x \/ z ∈ s).
Proof.
  induction s as [|y s IH]; intros Hcmp Hs; cbn.
  - split; [repeat constructor|]. intros z.
    rewrite list_elem_of_singleton, elem_of_nil. tauto.
  - apply StronglySorted_cons in Hs as [Hy Hs].
    rewrite Forall_forall in Hy.
    rewrite (Hcmp y) by (by left). cbn.
    destruct (0 <? key y - key x) eqn:Hlt.
    + apply Z.ltb_lt in Hlt.
      destruct IH as [IHs IHin]; [|done|].
      { intros z Hz. apply Hcmp. by right. }
      split.
      * apply StronglySorted_cons. split; [|done].
        rewrite Forall_forall. intros z [->|Hz]%IHin; [lia|by apply Hy].
      * intros z. rewrite !elem_of_cons, IHin. tauto.
    + apply Z.ltb_ge in Hlt. split.
      * apply StronglySorted_cons. split.
        -- rewrite Forall_forall. intros z [->|Hz]%elem_of_cons; [lia|].
           specialize (Hy z Hz). lia.
        -- apply StronglySorted_cons. by rewrite Forall_forall.
      * intros z. by rewrite !elem_of_cons.
Qed.

(** The reference engine's sort orders by key. *)
Lemma Reference_sorts_by_key : sorts_by_key Reference.engine.
Proof.
  intros key cmp xs Hcmp. cbn.
  assert (Hgen : forall l, (forall x, x ∈ l -> x ∈ xs) ->
    StronglySorted (fun a b => key b <= key a) (Reference.insertion_sort cmp l)
    /\ (forall z, z ∈ Reference.insertion_sort cmp l <-> z ∈ l)).
  { induction l as [|x l IH]; intros Hsub.
    { split; [constructor|done]. }
    destruct IH as [IHs IHin]. { intros y Hy. apply Hsub. by right. }
    cbn [Reference.insertion_sort foldr].
    destruct (insert_sorted_by_key key cmp x (Reference.insertion_sort cmp l))
      as [Hs Hin]; [|done|].
    { intros y Hy. apply Hcmp; [apply Hsub; by left|].
      apply Hsub. right. by apply IHin. }
    split; [done|]. intros z. rewrite Hin, elem_of_cons, IHin. done. }
  by apply Hgen.
Qed.

(** ** The file store *)

Section Store.
Context (outside : Outside).

Lemma reparse_VObj props : reparse (VObj props) = VObj (reparse_props props).
Proof. reflexivity. Qed.

Lemma reparse_defined v : reparse v <> VUndef.
Proof. destruct v as [| |b|[| | |z]|s|xs|props]; done. Qed.

Lemma reparse_props_cons k x ps :
  x <> VUndef -> reparse_props ((k, x) :: ps) = (k, reparse x) :: reparse_props ps.
Proof. by destruct x. Qed.

(** What [JSON.stringify] then [JSON.parse] make of a value stays as
    it is when written and read again. *)
Lemma reparse_idempotent : forall v : value, reparse (reparse v) = reparse v.
Proof.
  fix IH 1. intros [| |b|n|s|xs|props]; try reflexivity.
  - by destruct n.
  - cbn. f_equal. induction xs as [|x xs IHxs]; cbn; [done|].
    by rewrite IH, IHxs.
  - rewrite !reparse_VObj. f_equal.
    induction props as [|[k x] props IHprops]; [done|].
    assert (Hx : x = VUndef \/ x <> VUndef) by (destruct x; auto).
    destruct Hx as [->|Hx]; [done|].
    rewrite (reparse_props_cons k x) by done.
    rewrite reparse_props_cons by apply reparse_defined.
    by rewrite IH, IHprops.
Qed.

Lemma readJson_result file fallback w :
  (readJson outside file fallback w).1
    = Ok (default fallback (files w !! file)).
Proof. reflexivity. Qed.

Lemma tmp_differs (file : string) : file <> file +:+ ".tmp".
Proof.
  induction file as [|c file IH]; [done|].
  intros [= Heq]. by apply IH.
Qed.


End Store.

(** ** A topic just refreshed *)

Section RefreshedThenSkipped.
Context {E : Engine} (CONFIG : Config) (outside : Outside).

Lemma writeJsonAtomic_Ok file data w w' :
  writeJsonAtomic outside file data w = (Ok tt, w') ->
  data <> VUndef ->
  files w' !! file = Some (reparse data).
Proof.
  unfold writeJsonAtomic.
  destruct (disk outside (writes w) file) as [|e tmpLeft]; [|done].
  intros [= <-] Hdata. cbn.
  destruct data; try done; by rewrite lookup_insert_eq.
Qed.


End RefreshedThenSkipped.

(** ** A list that was fetched *)

Section ListPersist.
Context {E : Engine} (CONFIG : Config) (outside : Outside).

(** X7: when the fetch of a list succeeds and the snapshot is
    written, [fetchAndPersistList] returns the fetched data, the file
    holds it and the report records the list as "fetched" with its
    length.  When the fetch succeeds but the write fails, the fetched
    data is dropped: the function returns what the file held before,
    leaves the file as it was, and records "fallback" with the error
    of the write. *)
Theorem fetchAndPersistList_persists (name url filePath : string)
    (w w1 : World) (data : value) :
  fetchJsonWithRetry CONFIG outside url None
    (readJson outside filePath (VArr []) w).2 = (Ok data, w1) ->
  match disk outside (writes w1) filePath with
  | DiskOk =>
      exists w',
        fetchAndPersistList CONFIG outside name url filePath w = (Ok data, w')
        /\ files w' !! filePath
             = match data with VUndef => None | _ => Some (reparse data) end
        /\ lists (report w') !! name =
             Some {| status := "fetched"; count := lengthIfArray data;
                     source := url; list_error := None |}
  | DiskFails e _ =>
      exists w',
        let previous := default (VArr []) (files w !! filePath) in
        fetchAndPersistList CONFIG outside name url filePath w
          = (Ok previous, w')
        /\ files w' !! filePath = files w !! filePath
        /\ lists (report w') !! name =
             Some {| status := "fallback"; count := lengthIfArray previous;
                     source := url; list_error := Some (message e) |}
  end.
Proof.
  destruct (readJson_run outside filePath (VArr []) w)
    as (w0 & Hread & Hfiles0 & Hrep0).
  rewrite Hread. cbn [snd]. intros Hfetch.
  pose proof (keeps_files_fetchJsonWithRetry CONFIG outside url None w0)
    as Hfiles1.
  rewrite Hfetch in Hfiles1. cbn [snd] in Hfiles1.
  pose proof (tmp_differs filePath) as Htmp.
  destruct (disk outside (writes w1) filePath) as [|e tmpLeft] eqn:Hdisk.
  - eexists. unfold fetchAndPersistList. rewrite bind_run, Hread.
    unfold try_catch. rewrite bind_run, Hfetch, bind_run.
    unfold writeJsonAtomic. rewrite Hdisk. cbn.
    split; [reflexivity|]. cbn. split.
    + destruct data; by rewrite ?lookup_delete_eq, ?lookup_insert_eq.
    + by rewrite lookup_insert_eq.
  - eexists. cbv zeta. unfold fetchAndPersistList. rewrite bind_run, Hread.
    unfold try_catch. rewrite bind_run, Hfetch, bind_run.
    unfold writeJsonAtomic. rewrite Hdisk. cbn.
    split; [reflexivity|]. cbn. split.
    + destruct tmpLeft; cbn; rewrite <- Hfiles0, <- Hfiles1; [|done].
      destruct data; by rewrite ?lookup_delete_ne, ?lookup_insert_ne by done.
    + by rewrite lookup_insert_eq.
Qed.

End ListPersist.

(** ** An empty topic payload *)

Section EmptyPayload.
Context {E : Engine} (CONFIG : Config) (outside : Outside).

(** X8: when a topic is to be refreshed and the topic endpoint
    answers, but not with an array whose first element is truthy (an
    empty array, [null], an error object), the topic is recorded as
    failed with the message "Empty topic payload for <id>"; no file is
    written, no replies are requested, and the topic counts neither as
    refreshed nor as skipped. *)
Theorem empty_topic_payload_fails
    (topicId : JsNum) (topicFile repliesFile : string)
    (existingTopicDoc existingRepliesDoc : value)
    (listSnapshot : list (string * value)) (w w1 : World) (data : value) :
  fetchJsonWithRetry CONFIG outside (endpoints.topicById topicId) None w
    = (Ok data, w1) ->
  (forall first rest, data = VArr (first :: rest) -> ToBoolean first = false) ->
  exists w',
    try_catch
      (main_topic_try CONFIG outside topicId topicFile repliesFile
         existingTopicDoc existingRepliesDoc listSnapshot true)
      (main_topic_catch topicId) w = (Ok tt, w')
    /\ failures w'
         = failures w
             ++ [{| topic_id := topicId;
                    error := "Empty topic payload for "
                               +:+ Number_toString topicId |}]
    /\ files w' = files w
    /\ requests w' = requests w1
    /\ refreshed (report w') = refreshed (report w)
    /\ skipped (report w') = skipped (report w).
Proof.
  intros Hfetch Hempty.
  pose proof (keeps_files_fetchJsonWithRetry CONFIG outside
                (endpoints.topicById topicId) None w) as Hfiles.
  pose proof (keeps_report_fetchJsonWithRetry CONFIG outside
                (endpoints.topicById topicId) None w) as Hrep.
  rewrite Hfetch in Hfiles, Hrep. cbn [snd] in Hfiles, Hrep.
  assert (Hthrow :
    main_topic_try CONFIG outside topicId topicFile repliesFile
      existingTopicDoc existingRepliesDoc listSnapshot true w
    = (Throw (Error ("Empty topic payload for " +:+ Number_toString topicId)),
       w1)).
  { unfold main_topic_try, main_topic_refresh, fetchTopic.
    rewrite !bind_run, Hfetch.
    destruct data as [| |b|n|s|[|first rest]|props]; try reflexivity.
    cbn. by rewrite (Hempty first rest eq_refl). }
  unfold try_catch. rewrite Hthrow.
  eexists. split; [reflexivity|]. cbn. unfold failures.
  by rewrite Hfiles, Hrep.
Qed.

End EmptyPayload.

(** ** The request budget *)

Section Budget.
Context {E : Engine} (CONFIG : Config) (outside : Outside).

Lemma costs_keeps {A} (m : M A) n : keeps requests m -> costs n m.
Proof. intros Hm w. rewrite Hm. lia. Qed.

Lemma costs_weaken {A} (m : M A) n n' :
  costs n m -> (n <= n')%nat -> costs n' m.
Proof. intros Hm Hle w. specialize (Hm w). lia. Qed.

Lemma costs_bind {A B} (m : M A) (f : A -> M B) n k :
  costs n m -> (forall a, costs k (f a)) -> costs (n + k) (m ≫= f).
Proof.
  intros Hm Hf w. rewrite bind_run. specialize (Hm w).
  destruct (m w) as [[a|e] w1]; cbn in *; [|lia].
  specialize (Hf a w1). lia.
Qed.

Lemma costs_try_catch {A} (m : M A) (h : JsError -> M A) n k :
  costs n m -> (forall e, costs k (h e)) -> costs (n + k) (try_catch m h).
Proof.
  intros Hm Hh w. unfold try_catch. specialize (Hm w).
  destruct (m w) as [[a|e] w1]; cbn in *; [lia|].
  specialize (Hh e w1). lia.
Qed.

Lemma costs_seq {A B} (m : M A) (f : A -> M B) n k N :
  costs n m -> (forall a, costs k (f a)) -> (n + k <= N)%nat ->
  costs N (m ≫= f).
Proof. intros Hm Hf Hle. eapply costs_weaken; [by apply costs_bind|done]. Qed.

Lemma costs_then_quiet {A B} (m : M A) (f : A -> M B) n :
  costs n m -> (forall a, keeps requests (f a)) -> costs n (m ≫= f).
Proof.
  intros Hm Hf. apply (costs_seq _ _ n 0); [done| |lia].
  intros a. by apply costs_keeps.
Qed.

Lemma costs_quiet_then {A B} (m : M A) (f : A -> M B) n :
  keeps requests m -> (forall a, costs n (f a)) -> costs n (m ≫= f).
Proof.
  intros Hm Hf. apply (costs_seq _ _ 0 n); [by apply costs_keeps|done|lia].
Qed.

Lemma keeps_requests_suspend : keeps requests (suspend outside).
Proof. unfold suspend. frame. Qed.

Lemma keeps_requests_sleep site ms : keeps requests (sleep outside site ms).
Proof. unfold sleep, suspend. frame. Qed.

Lemma keeps_requests_console_error line : keeps requests (console_error line).
Proof. unfold console_error. frame. Qed.

Lemma keeps_requests_update_report f : keeps requests (update_report f).
Proof. unfold update_report. frame. Qed.

Lemma keeps_requests_readJson file fallback :
  keeps requests (readJson outside file fallback).
Proof. unfold readJson, suspend. frame. Qed.

Lemma keeps_requests_writeJsonAtomic file data :
  keeps requests (writeJsonAtomic outside file data).
Proof.
  intros w. unfold writeJsonAtomic.
  by destruct (disk outside (writes w) file) as [|e []].
Qed.

Hint Resolve keeps_requests_suspend keeps_requests_sleep
  keeps_requests_console_error keeps_requests_update_report
  keeps_requests_readJson keeps_requests_writeJsonAtomic : frame.

Lemma costs_fetchJsonWithRetry url authToken :
  costs (retries CONFIG) (fetchJsonWithRetry CONFIG outside url authToken).
Proof.
  intros w. unfold fetchJsonWithRetry.
  destruct (fetchJsonWithRetry_loop_run CONFIG outside url authToken
              (retries CONFIG) 0 None w)
    as (w' & res & f & new & -> & _ & _ & _ & Hreq & _ & _ & Hend).
  cbn [snd]. destruct res; [destruct Hend as [? _]|destruct Hend as [-> _]];
    lia.
Qed.

Lemma costs_fetchTopic topicId :
  costs (retries CONFIG) (fetchTopic CONFIG outside topicId).
Proof.
  unfold fetchTopic.
  apply costs_then_quiet; [apply costs_fetchJsonWithRetry|].
  intros data. frame.
Qed.

Lemma costs_fetchReplies_pages topicId token remaining :
  forall p all,
    costs (remaining * retries CONFIG)
      (fetchReplies_pages CONFIG outside topicId token remaining p all).
Proof.
  induction remaining as [|r IH]; intros p all; cbn [fetchReplies_pages].
  - apply costs_keeps. frame.
  - apply (costs_seq _ _ (retries CONFIG) (r * retries CONFIG));
      [apply costs_fetchJsonWithRetry| |lia].
    intros page. cbv zeta.
    destruct (bool_decide _); [apply costs_keeps; frame|].
    destruct (_ <? 50); [apply costs_keeps; frame|apply IH].
Qed.

Lemma costs_fetchReplies topicId :
  costs (50 * retries CONFIG) (fetchReplies CONFIG outside topicId).
Proof.
  unfold fetchReplies. destruct (authHeader _) as [token|].
  - apply costs_then_quiet; [apply costs_fetchReplies_pages|].
    intros all. frame.
  - apply (costs_weaken _ (retries CONFIG)); [|lia].
    apply costs_then_quiet; [apply costs_fetchJsonWithRetry|].
    intros data. frame.
Qed.

Lemma costs_fetchReplies_basic topicId :
  authHeader (V2EX_TOKEN CONFIG) = None ->
  costs (retries CONFIG) (fetchReplies CONFIG outside topicId).
Proof.
  intros Hno. unfold fetchReplies. rewrite Hno.
  apply costs_then_quiet; [apply costs_fetchJsonWithRetry|].
  intros data. frame.
Qed.

(** One iteration of the per-topic loop, the replies costing at most
    [k] requests. *)
Lemma costs_main_topic latest hot now ttlMs topicId k :
  (forall id, costs k (fetchReplies CONFIG outside id)) ->
  costs (retries CONFIG + k)
    (main_topic CONFIG outside latest hot now ttlMs topicId).
Proof.
  intros Hreplies. unfold main_topic.
  apply costs_quiet_then; [frame|]. intros existingTopicDoc.
  apply costs_quiet_then; [frame|]. intros existingRepliesDoc.
  apply costs_quiet_then; [frame|]. intros listSnapshot.
  apply (costs_weaken _ (retries CONFIG + k + 0)); [|lia].
  apply costs_try_catch.
  - unfold main_topic_try. apply costs_bind.
    + unfold main_topic_refresh.
      destruct (decideRefreshTopic _ _ _ _).
      * apply costs_then_quiet; [apply costs_fetchTopic|].
        intros topic. destruct (negb _); frame.
      * apply costs_keeps. frame.
    + intros topic. unfold main_topic_replies.
      destruct (_ && _); [|apply costs_keeps; frame].
      unfold main_replies_fetch.
      apply costs_then_quiet; [apply Hreplies|].
      intros replies. frame.
  - intros e. apply costs_keeps. unfold main_topic_catch. frame.
Qed.

(** X9: the requests of a run are bounded.  A call of
    [fetchJsonWithRetry] issues at most [retries] requests, the sync of
    a list as many; one candidate topic costs at most [51 * retries]
    requests (one retried request for the topic and at most 50 retried
    pages of replies), and at most [2 * retries] when no token is set;
    the whole per-topic loop costs at most that for each candidate. *)
Theorem request_budget :
  (forall url authToken,
      costs (retries CONFIG) (fetchJsonWithRetry CONFIG outside url authToken))
  /\ (forall name url filePath,
      costs (retries CONFIG)
        (fetchAndPersistList CONFIG outside name url filePath))
  /\ (forall latest hot now ttlMs topicId,
      costs (51 * retries CONFIG)
        (main_topic CONFIG outside latest hot now ttlMs topicId))
  /\ (authHeader (V2EX_TOKEN CONFIG) = None ->
      forall latest hot now ttlMs topicId,
        costs (2 * retries CONFIG)
          (main_topic CONFIG outside latest hot now ttlMs topicId))
  /\ (forall latest hot now ttlMs candidates,
      costs (length candidates * (51 * retries CONFIG))
        (main_topics CONFIG outside latest hot now ttlMs candidates)).
Proof.
  assert (Htopic : forall latest hot now ttlMs topicId,
    costs (51 * retries CONFIG)
      (main_topic CONFIG outside latest hot now ttlMs topicId)).
  { intros. eapply costs_weaken;
      [apply (costs_main_topic _ _ _ _ _ (50 * retries CONFIG)),
         costs_fetchReplies|lia]. }
  split; [apply costs_fetchJsonWithRetry|]. split; [|split; [done|split]].
  - intros name url filePath. unfold fetchAndPersistList.
    apply costs_quiet_then; [frame|]. intros fallback.
    apply (costs_weaken _ (retries CONFIG + 0)); [|lia].
    apply costs_try_catch.
    + apply costs_then_quiet; [apply costs_fetchJsonWithRetry|].
      intros data. frame.
    + intros e. apply costs_keeps. frame.
  - intros Hno latest hot now ttlMs topicId.
    eapply costs_weaken;
      [apply (costs_main_topic _ _ _ _ _ (retries CONFIG))|lia].
    intros id. by apply costs_fetchReplies_basic.
  - intros latest hot now ttlMs candidates. unfold main_topics.
    induction candidates as [|topicId rest IH]; cbn [for_of length].
    + apply costs_keeps. frame.
    + apply (costs_seq _ _ (51 * retries CONFIG)
               (length rest * (51 * retries CONFIG))); [apply Htopic| |lia].
      intros _. apply IH.
Qed.

End Budget.

(** ** What the per-topic loop counts *)

Section Accounting.
Context {E : Engine} (CONFIG : Config) (outside : Outside).

(** The refresh-or-skip branch counts the topic once when it yields a
    topic, and not at all when it throws. *)
Lemma main_topic_refresh_counts topicId topicFile existingTopicDoc
    listSnapshot shouldRefreshTopic w :
  let run := main_topic_refresh CONFIG outside topicId topicFile
               existingTopicDoc listSnapshot shouldRefreshTopic w in
  report_header (report run.2) = report_header (report w)
  /\ failures run.2 = failures w
  /\ match run.1 with
     | Ok _ =>
         if shouldRefreshTopic
         then refreshed (report run.2) = refreshed (report w) + 1
              /\ skipped (report run.2) = skipped (report w)
         else refreshed (report run.2) = refreshed (report w)
              /\ skipped (report run.2) = skipped (report w) + 1
     | Throw _ => report run.2 = report w
     end.
Proof.
  unfold main_topic_refresh. destruct shouldRefreshTopic; [|done].
  rewrite bind_run.
  pose proof (keeps_report_fetchTopic CONFIG outside topicId w) as Hrep.
  destruct (fetchTopic CONFIG outside topicId w) as [[topic|e] w1];
    cbn [fst snd] in *; [|unfold failures; by rewrite Hrep].
  destruct (ToBoolean topic); cbn [negb];
    [|cbn; unfold failures; by rewrite Hrep].
  rewrite bind_run. cbn [now_toISOString]. rewrite bind_run.
  match goal with |- context [writeJsonAtomic outside ?f ?d w1] =>
    pose proof (keeps_report_writeJsonAtomic outside f d w1) as Hrep2;
    destruct (writeJsonAtomic outside f d w1) as [[[]|e] w2] end;
    cbn [fst snd] in *.
  - rewrite bind_run. unfold update_report, modify. cbn. unfold failures. by rewrite Hrep2, Hrep.
  - unfold failures. by rewrite Hrep2, Hrep.
Qed.

Lemma keeps_report_main_topic_replies topicId repliesFile existingRepliesDoc
    shouldRefreshTopic topic :
  keeps report
    (main_topic_replies CONFIG outside topicId repliesFile existingRepliesDoc
       shouldRefreshTopic topic).
Proof. unfold main_topic_replies, main_replies_fetch. frame. Qed.

Lemma main_topic_catch_report topicId e w :
  exists w',
    main_topic_catch topicId e w = (Ok tt, w')
    /\ report w'
       = set_failed
           (failed (report w) ++ [{| topic_id := topicId; error := message e |}])
           (report w).
Proof. eexists. split; reflexivity. Qed.

(** The [try] block with its [catch]: the topic is counted as
    refreshed or as skipped at most once, and recorded as failed at
    most once, and one of the two happens. *)
Lemma main_topic_caught_counts topicId topicFile repliesFile existingTopicDoc
    existingRepliesDoc listSnapshot shouldRefreshTopic w :
  exists w',
    try_catch
      (main_topic_try CONFIG outside topicId topicFile repliesFile
         existingTopicDoc existingRepliesDoc listSnapshot shouldRefreshTopic)
      (main_topic_catch topicId) w = (Ok tt, w')
    /\ report_header (report w') = report_header (report w)
    /\ refreshed (report w) <= refreshed (report w')
    /\ skipped (report w) <= skipped (report w')
    /\ ((handled w' = handled w + 1 /\ failures w' = failures w)
        \/ exists e,
             failures w' = failures w ++ [{| topic_id := topicId; error := e |}]
             /\ handled w <= handled w' <= handled w + 1).
Proof.
  unfold try_catch, main_topic_try. rewrite bind_run.
  destruct (main_topic_refresh_counts topicId topicFile existingTopicDoc
              listSnapshot shouldRefreshTopic w) as (Hhead & Hfail & Hcount).
  destruct (main_topic_refresh CONFIG outside topicId topicFile
              existingTopicDoc listSnapshot shouldRefreshTopic w)
    as [[topic|e] w1]; cbn [fst snd] in *.
  - pose proof (keeps_report_main_topic_replies topicId repliesFile
                  existingRepliesDoc shouldRefreshTopic topic w1) as Hrep.
    destruct (main_topic_replies CONFIG outside topicId repliesFile
                existingRepliesDoc shouldRefreshTopic topic w1)
      as [[[]|e] w2]; cbn [snd] in Hrep.
    + eexists. split; [reflexivity|]. unfold handled, failures in *.
      rewrite Hrep. split; [done|].
      destruct shouldRefreshTopic; (split; [lia|]); (split; [lia|]);
        left; (split; [lia|done]).
    + destruct (main_topic_catch_report topicId e w2) as (w3 & -> & Hrep3).
      eexists. split; [reflexivity|]. unfold handled, failures in *.
      rewrite Hrep3, Hrep. cbn.
      split; [done|].
      destruct shouldRefreshTopic; (split; [lia|]); (split; [lia|]);
        right; exists (message e); (split; [by rewrite Hfail|lia]).
  - destruct (main_topic_catch_report topicId e w1) as (w3 & -> & Hrep3).
    eexists. split; [reflexivity|]. unfold handled, failures in *.
    rewrite Hrep3, Hcount. cbn.
    split; [done|]. split; [lia|]. split; [lia|].
    right. exists (message e). split; [done|lia].
Qed.

(** One iteration of the loop. *)
Lemma main_topic_counts latest hot now ttlMs xs ys topicId w :
  spread (latest ?? VArr []) = Ok xs ->
  spread (hot ?? VArr []) = Ok ys ->
  exists w',
    main_topic CONFIG outside latest hot now ttlMs topicId w = (Ok tt, w')
    /\ report_header (report w') = report_header (report w)
    /\ refreshed (report w) <= refreshed (report w')
    /\ skipped (report w) <= skipped (report w')
    /\ ((handled w' = handled w + 1 /\ failures w' = failures w)
        \/ exists e,
             failures w' = failures w ++ [{| topic_id := topicId; error := e |}]
             /\ handled w <= handled w' <= handled w + 1).
Proof.
  intros Hlatest Hhot. unfold main_topic.
  set (topicFile := (TOPICS_DIR +:+ _)%string).
  set (repliesFile := (REPLIES_DIR +:+ _)%string).
  destruct (readJson_run outside topicFile VNull w) as (w1 & Hr1 & _ & Hrep1).
  destruct (readJson_run outside repliesFile VNull w1) as (w2 & Hr2 & _ & Hrep2).
  rewrite bind_run, Hr1, bind_run, Hr2, bind_run.
  unfold snapshotFromLists. rewrite Hlatest, Hhot.
  cbn [mbind Result_bind lift mret Result_ret].
  assert (Hw2 : report w2 = report w) by congruence.
  unfold handled, failures. rewrite <- Hw2.
  match goal with |- context [main_topic_try _ _ _ ?tf ?rf ?d1 ?d2 ?s ?b] =>
    destruct (main_topic_caught_counts topicId tf rf d1 d2 s b w2)
      as (w' & Hrun & Hrest) end.
  exists w'. split; [exact Hrun|]. exact Hrest.
Qed.

(** The whole loop. *)
Lemma main_topics_counts (latest hot : value) (now ttlMs : Z)
    (xs ys : list value) (candidates : list JsNum) (w : World) :
  spread (latest ?? VArr []) = Ok xs ->
  spread (hot ?? VArr []) = Ok ys ->
  exists w' newFailed,
    main_topics CONFIG outside latest hot now ttlMs candidates w = (Ok tt, w')
    /\ report_header (report w') = report_header (report w)
    /\ refreshed (report w) <= refreshed (report w')
    /\ skipped (report w) <= skipped (report w')
    /\ failures w' = failures w ++ newFailed
    /\ handled w' - handled w <= Z.of_nat (length candidates)
    /\ Z.of_nat (length candidates)
         <= handled w' - handled w + Z.of_nat (length newFailed)
    /\ (length newFailed <= length candidates)%nat.
Proof.
  intros Hlatest Hhot. unfold main_topics. revert w.
  induction candidates as [|topicId rest IH]; intros w.
  - exists w, []. cbn. rewrite app_nil_r. repeat split; lia.
  - cbn [for_of]. rewrite bind_run.
    destruct (main_topic_counts latest hot now ttlMs xs ys topicId w
                Hlatest Hhot)
      as (w1 & -> & Hhead1 & Href1 & Hskip1 & Hone).
    destruct (IH w1)
      as (w' & more & -> & Hhead & Href & Hskip & Hfail & Hle & Hge & Hlen).
    cbn [length].
    destruct Hone as [[Hh Hf]|(e & Hf & Hh)].
    + exists w', more. rewrite Hhead, Hhead1, Hfail, Hf.
      repeat split; try done; lia.
    + exists w', ({| topic_id := topicId; error := e |} :: more).
      rewrite Hhead, Hhead1, Hfail, Hf, <- app_assoc. cbn [length app].
      repeat split; try done; lia.
Qed.

(** X10: with [latest] and [hot] iterable, as they are when the loop is
    reached, the per-topic loop accounts for every candidate.  An
    iteration ends normally, having counted its topic as refreshed or
    as skipped at most once and recorded it as failed at most once, one
    of the two at least.  So the loop ends normally, the counters never
    go down, the topics counted as refreshed or skipped are at most the
    candidates, the candidates at most those and the new failures
    together, and of the report the loop changes nothing else. *)
Theorem main_topics_accounting (latest hot : value) (now ttlMs : Z)
    (xs ys : list value) :
  spread (latest ?? VArr []) = Ok xs ->
  spread (hot ?? VArr []) = Ok ys ->
  (forall topicId w,
      exists w',
        main_topic CONFIG outside latest hot now ttlMs topicId w = (Ok tt, w')
        /\ report_header (report w') = report_header (report w)
        /\ refreshed (report w) <= refreshed (report w')
        /\ skipped (report w) <= skipped (report w')
        /\ ((handled w' = handled w + 1 /\ failures w' = failures w)
            \/ exists e,
                 failures w'
                   = failures w ++ [{| topic_id := topicId; error := e |}]
                 /\ handled w <= handled w' <= handled w + 1))
  /\ (forall candidates w,
      exists w' newFailed,
        main_topics CONFIG outside latest hot now ttlMs candidates w
          = (Ok tt, w')
        /\ report_header (report w') = report_header (report w)
        /\ refreshed (report w) <= refreshed (report w')
        /\ skipped (report w) <= skipped (report w')
        /\ failures w' = failures w ++ newFailed
        /\ handled w' - handled w <= Z.of_nat (length candidates)
        /\ Z.of_nat (length candidates)
             <= handled w' - handled w + Z.of_nat (length newFailed)
        /\ (length newFailed <= length candidates)%nat).
Proof.
  intros Hlatest Hhot. split.
  - intros topicId w. by eapply main_topic_counts.
  - intros candidates w. by eapply main_topics_counts.
Qed.

End Accounting.

(** ** A run that ends normally *)

Section Outcome.
Context {E : Engine} (CONFIG : Config) (outside : Outside).

Lemma writeJsonAtomic_Ok_frame file data w w' :
  writeJsonAtomic outside file data w = (Ok tt, w') ->
  data <> VUndef ->
  files w' = <[file := reparse data]> (files w) /\ report w' = report w.
Proof.
  unfold writeJsonAtomic.
  destruct (disk outside (writes w) file) as [|e tmpLeft]; [|done].
  intros [= <-] Hdata. cbn. by destruct data.
Qed.

(** Whichever way a list is synced, its status is entered in the
    report under its name, and the report is otherwise left alone. *)
Lemma fetchAndPersistList_report name url filePath w :
  exists st,
    report (fetchAndPersistList CONFIG outside name url filePath w).2
    = set_lists (<[name := st]> (lists (report w))) (report w).
Proof.
  unfold fetchAndPersistList. rewrite bind_run.
  destruct (readJson_run outside filePath (VArr []) w) as (w1 & -> & _ & Hrep1).
  unfold try_catch. rewrite bind_run.
  pose proof (keeps_report_fetchJsonWithRetry CONFIG outside url None w1)
    as Hrep2.
  destruct (fetchJsonWithRetry CONFIG outside url None w1) as [[data|e] w2];
    cbn [snd] in Hrep2.
  - rewrite bind_run.
    pose proof (keeps_report_writeJsonAtomic outside filePath data w2) as Hrep3.
    destruct (writeJsonAtomic outside filePath data w2) as [[[]|e] w3];
      cbn [snd] in Hrep3.
    + eexists. unfold update_report, modify, mbind, M_bind. cbn.
      by rewrite Hrep3, Hrep2, Hrep1.
    + eexists. unfold update_report, console_error, modify, mbind, M_bind.
      cbn. by rewrite Hrep3, Hrep2, Hrep1.
  - eexists. unfold update_report, console_error, modify, mbind, M_bind.
    cbn. by rewrite Hrep2, Hrep1.
Qed.

Lemma coalesce_twice a b : (a ?? b) ?? b = a ?? b.
Proof. unfold coalesce. destruct (nullish a) eqn:Ha; [|by rewrite Ha]. by destruct (nullish b). Qed.

Lemma updateHotPool_Ok hot pool w w' :
  updateHotPool CONFIG outside hot w = (Ok pool, w') ->
  report w' = report w /\ exists ys, spread (hot ?? VArr []) = Ok ys.
Proof.
  unfold updateHotPool.
  intros (prevPool & w1 & Hread & Hrest)%bind_Ok_inv.
  pose proof (keeps_report_readJson outside HOT_POOL_FILE (VArr []) w) as Hrep1.
  rewrite Hread in Hrep1. cbn [snd] in Hrep1.
  apply bind_Ok_inv in Hrest as (merged & w2 & Hmerge & Hrest).
  unfold lift in Hmerge. injection Hmerge as Hmerge <-.
  apply bind_Ok_inv in Hrest as (now & w3 & [= <- <-] & Hrest).
  cbv zeta in Hrest.
  apply bind_Ok_inv in Hrest as ([] & w4 & Hwrite & [= <- <-]).
  pose proof (keeps_report_writeJsonAtomic outside HOT_POOL_FILE
    (VArr (hotPoolLimited CONFIG (hotPoolPruned CONFIG (clock w1) merged))) w1)
    as Hrep4.
  rewrite Hwrite in Hrep4. cbn [snd] in Hrep4.
  split; [congruence|].
  unfold mergeTopicLists in Hmerge. rewrite coalesce_twice in Hmerge.
  destruct (spread (prevPool ?? VArr [])); [|done].
  cbn in Hmerge. destruct (spread (hot ?? VArr [])); [eauto|done].
Qed.

Lemma dedupeTopicIds_valid items id :
  id ∈ dedupeTopicIds items -> exists z, id = Num z /\ 0 < z.
Proof.
  induction items as [|item items IH] using rev_ind; [by intros ?%elem_of_nil|].
  rewrite dedupeTopicIds_snoc. unfold dedupeTopicIds_step.
  destruct (isFinite _ && js_gt _ _) eqn:Hvalid; [|done].
  intros [?| ->]%elem_of_Set_add; [auto|]. by apply valid_id_positive.
Qed.

Lemma reparse_ids ids :
  (forall id, id ∈ ids -> exists z, id = Num z /\ 0 < z) ->
  reparse (VArr (VNum <$> ids)) = VArr (VNum <$> ids).
Proof.
  intros Hids. cbn. f_equal.
  induction ids as [|id ids IH]; [done|]. cbn. f_equal.
  - destruct (Hids id) as (z & -> & _); [left|done].
  - apply IH. intros id' Hin. apply Hids. by right.
Qed.

(** X11: a run of [main] that ends normally leaves its report in
    [last_run.json] and its state in [state.json].  The state names the
    candidates, which are distinct finite positive ids, and the counts
    of the report; the report is finished, has the run's configuration
    and an entry for each of the lists latest, hot, hot_pool and nodes
    and for nothing else; its candidate count is the number of
    candidates, and every candidate is accounted for: the topics
    refreshed and skipped are at most the candidates, and the
    candidates at most those and the failed ones together. *)
Theorem main_outcome (w w' : World) :
  main CONFIG outside w = (Ok tt, w') ->
  exists ids state,
    let r := report w' in
    NoDup ids
    /\ (forall id, id ∈ ids -> exists z, id = Num z /\ 0 < z)
    /\ files w' !! LAST_RUN_FILE = Some (reparse (Report_value r))
    /\ files w' !! STATE_FILE = Some state
    /\ state?."candidate_topic_ids" = VArr (VNum <$> ids)
    /\ state?."refreshed_topic_count" = num (refreshed r)
    /\ state?."failed_topic_count" = num (Z.of_nat (length (failed r)))
    /\ config r = CONFIG
    /\ is_Some (finished_at r)
    /\ (forall name,
          is_Some (lists r !! name)
          <-> name ∈ ["latest"; "hot"; "hot_pool"; "nodes"]%string)
    /\ candidates r = Z.of_nat (length ids)
    /\ 0 <= refreshed r /\ 0 <= skipped r
    /\ refreshed r + skipped r <= candidates r
    /\ candidates r <= refreshed r + skipped r + Z.of_nat (length (failed r))
    /\ (length (failed r) <= length ids)%nat.
Proof.
  unfold main.
  intros (startedAt & w0 & [= <- <-] & Hmain)%bind_Ok_inv.
  apply bind_Ok_inv in Hmain as ([] & w1 & _ & Hmain).
  apply bind_Ok_inv in Hmain as (previousState & w2 & _ & Hmain).
  apply bind_Ok_inv in Hmain as ([] & w3 & [= <-] & Hmain).
  apply bind_Ok_inv in Hmain as (latest & w4 & Hlatest & Hmain).
  destruct (fetchAndPersistList_report "latest" endpoints.latest
              (INDEX_DIR +:+ "/latest.json") 
              (set_report
                 {| started_at := Date_toISOString (clock w);
                    finished_at := None; config := CONFIG; lists := ∅;
                    candidates := 0; refreshed := 0; skipped := 0;
                    failed := [] |} w2)) as (st1 & Hrep4).
  rewrite Hlatest in Hrep4. cbn [snd] in Hrep4.
  apply bind_Ok_inv in Hmain as (hot & w5 & Hhot & Hmain).
  destruct (fetchAndPersistList_report "hot" endpoints.hot
              (INDEX_DIR +:+ "/hot.json") w4) as (st2 & Hrep5).
  rewrite Hhot in Hrep5. cbn [snd] in Hrep5.
  apply bind_Ok_inv in Hmain as (hotPool & w6 & Hpool & Hmain).
  apply updateHotPool_Ok in Hpool as (Hrep6 & ys & Hys).
  apply bind_Ok_inv in Hmain as ([] & w7 & [= <-] & Hmain).
  apply bind_Ok_inv in Hmain as (nodes & w8 & Hnodes & Hmain).
  match type of Hnodes with fetchAndPersistList _ _ _ _ _ ?w6' = _ =>
    destruct (fetchAndPersistList_report "nodes" endpoints.nodes
                (NODES_DIR +:+ "/all.json") w6') as (st3 & Hrep8) end.
  rewrite Hnodes in Hrep8. cbn [snd] in Hrep8.
  apply bind_Ok_inv in Hmain as (xs & w9 & Hxs & Hmain).
  unfold lift in Hxs. injection Hxs as Hxs <-.
  apply bind_Ok_inv in Hmain as (ps & w10 & Hps & Hmain).
  unfold lift in Hps. injection Hps as Hps <-.
  cbv zeta in Hmain.
  apply bind_Ok_inv in Hmain as ([] & w11 & [= <-] & Hmain).
  apply bind_Ok_inv in Hmain as (now & w12 & [= <- <-] & Hmain).
  set (ids := dedupeTopicIds (xs ++ ps)) in *.
  apply bind_Ok_inv in Hmain as ([] & w13 & Hloop & Hmain).
  subst ps.
  match type of Hloop with main_topics _ _ _ _ ?now ?ttl _ ?w0 = _ =>
    destruct (main_topics_counts CONFIG outside latest hot now ttl xs ys ids w0
                Hxs Hys)
      as (w13' & newFailed & Hloop' & Hhead & Href & Hskip & Hfail & Hle & Hge
          & Hlen) end.
  rewrite Hloop in Hloop'. injection Hloop' as <-.
  apply bind_Ok_inv in Hmain as (last_success_at & w14 & [= <- <-] & Hmain).
  apply bind_Ok_inv in Hmain as (previous & w15 & Hprev & Hmain).
  unfold lift in Hprev. injection Hprev as Hprev <-.
  apply bind_Ok_inv in Hmain as (wa & w16 & [= <- <-] & Hmain).
  apply bind_Ok_inv in Hmain as (finishedAt & w17 & [= <- <-] & Hmain).
  apply bind_Ok_inv in Hmain as ([] & w18 & [= <-] & Hmain).
  apply bind_Ok_inv in Hmain as ([] & w19 & Hstate & Hmain).
  apply writeJsonAtomic_Ok_frame in Hstate as [Hfiles19 Hrep19]; [|done].
  apply bind_Ok_inv in Hmain as (wb & w20 & [= <- <-] & Hmain).
  apply bind_Ok_inv in Hmain as ([] & w21 & Hlast & Hmain).
  apply writeJsonAtomic_Ok_frame in Hlast as [Hfiles21 Hrep21]; [|done].
  injection Hmain as <-.
  assert (H8 : refreshed (report w8) = 0 /\ skipped (report w8) = 0
               /\ failed (report w8) = [] /\ config (report w8) = CONFIG
               /\ exists st0,
                    lists (report w8)
                    = <["nodes"%string := st3]>
                        (<["hot_pool"%string := st0]>
                           (<["hot"%string := st2]>
                              (<["latest"%string := st1]> ∅)))).
  { rewrite Hrep8. cbn. rewrite Hrep6, Hrep5, Hrep4. cbn. eauto 10. }
  destruct H8 as (Href8 & Hskip8 & Hfail8 & Hconfig8 & st0 & Hlists8).
  unfold report_header in Hhead. cbn in Hhead.
  injection Hhead as Hstarted Hfinished Hconfig Hlists Hcands.
  unfold handled, failures in *. cbn in Href, Hskip, Hfail, Hle, Hge.
  rewrite Href8 in Href. rewrite Hskip8 in Hskip.
  rewrite Href8, Hskip8 in Hle, Hge. rewrite Hfail8 in Hfail. cbn in Hfail.
  assert (Hrep' : report w21
                  = set_finished_at (Some (Date_toISOString (clock w13)))
                      (report w13)) by (by rewrite Hrep21, Hrep19).
  exists ids,
    (reparse
       (VObj [("last_success_at", VStr (Date_toISOString (clock w13)));
              ("candidate_topic_ids", VArr (VNum <$> ids));
              ("refreshed_topic_count", num (refreshed (report w13)));
              ("failed_topic_count",
               num (Z.of_nat (length (failed (report w13)))));
              ("previous_last_success_at", previous ?? VNull)]%string)).
  cbv zeta. cbn [emit report files]. rewrite Hrep'.
  cbn [set_finished_at refreshed skipped failed config finished_at lists
       candidates].
  split; [apply dedupeTopicIds_NoDup|].
  split; [intros id; apply dedupeTopicIds_valid|].
  split; [by rewrite Hfiles21, lookup_insert_eq, Hrep19|].
  split.
  { rewrite Hfiles21, lookup_insert_ne by done.
    by rewrite Hfiles19, lookup_insert_eq. }
  split.
  { rewrite reparse_VObj. cbn [reparse_props prop assoc].
    repeat first [rewrite bool_decide_eq_true_2 by done
                 |rewrite bool_decide_eq_false_2 by done].
    apply reparse_ids. intros id. apply dedupeTopicIds_valid. }
  split.
  { rewrite reparse_VObj. cbn [reparse_props prop assoc].
    by repeat first [rewrite bool_decide_eq_true_2 by done
                    |rewrite bool_decide_eq_false_2 by done]. }
  split.
  { rewrite reparse_VObj. cbn [reparse_props prop assoc].
    by repeat first [rewrite bool_decide_eq_true_2 by done
                    |rewrite bool_decide_eq_false_2 by done]. }
  split; [congruence|]. split; [done|].
  split.
  { intros name. rewrite Hlists, Hlists8.
    rewrite !lookup_insert_is_Some', lookup_empty, <- not_eq_None_Some.
    rewrite !elem_of_cons, elem_of_nil. intuition congruence. }
  rewrite Hcands, Hfail.
  repeat split; lia.
Qed.

End Outcome.

(** ** What can make a run fail *)

Section Failure.
Context {E : Engine} (CONFIG : Config) (outside : Outside).

Lemma fails_only_ret {A} P (a : A) : fails_only P (mret a).
Proof. by intros w e w'. Qed.

Lemma fails_only_modify P f : fails_only P (modify f).
Proof. by intros w e w'. Qed.

Lemma fails_only_get_world P : fails_only P get_world.
Proof. by intros w e w'. Qed.

Lemma fails_only_Date_now P : fails_only P Date_now.
Proof. by intros w e w'. Qed.

Lemma fails_only_now_toISOString P : fails_only P now_toISOString.
Proof. by intros w e w'. Qed.

Lemma fails_only_lift {A} (P : JsError -> Prop) (r : Result A) :
  (forall e, r = Throw e -> P e) -> fails_only P (lift r).
Proof. intros Hr w e w' [= -> _]. by apply Hr. Qed.

Lemma fails_only_bind {A B} P (m : M A) (f : A -> M B) :
  fails_only P m -> (forall a, fails_only P (f a)) -> fails_only P (m ≫= f).
Proof.
  intros Hm Hf w e w'. rewrite bind_run.
  destruct (m w) as [[a|e0] w1] eqn:Hrun.
  - apply Hf.
  - intros [= <- <-]. by eapply Hm.
Qed.

(** A [try] whose handler cannot throw cannot throw. *)
Lemma fails_only_try_catch {A} P (m : M A) (h : JsError -> M A) :
  (forall e, fails_only P (h e)) -> fails_only P (try_catch m h).
Proof.
  intros Hh w e w'. unfold try_catch.
  destruct (m w) as [[a|e0] w1]; [done|]. apply Hh.
Qed.

Lemma fails_only_writeJsonAtomic file data :
  fails_only (fatal outside) (writeJsonAtomic outside file data).
Proof.
  intros w e w'. unfold writeJsonAtomic.
  destruct (disk outside (writes w) file) as [|e0 tmpLeft] eqn:Hdisk; [done|].
  intros [= <- _]. left. eauto.
Qed.

Lemma fails_only_ensureDirs dirs :
  fails_only (fatal outside) (ensureDirs outside dirs).
Proof.
  intros w e w'. unfold ensureDirs.
  destruct (disk outside (writes w) _) as [|e0 tmpLeft] eqn:Hdisk; [done|].
  intros [= <- _]. left. eauto.
Qed.

Lemma spread_TypeError v e : spread v = Throw e -> exists msg, e = TypeError msg.
Proof. destruct v; cbn; intros [= <-]; eauto. Qed.

Lemma member_TypeError v k e :
  member v k = Throw e -> exists msg, e = TypeError msg.
Proof. unfold member. destruct (nullish v); intros [= <-]; eauto. Qed.

Lemma mergeTopicLists_TypeError a b e :
  mergeTopicLists a b = Throw e -> exists msg, e = TypeError msg.
Proof.
  unfold mergeTopicLists.
  destruct (spread (a ?? VArr [])) eqn:Ha; [|intros [= <-]; by eapply spread_TypeError].
  destruct (spread (b ?? VArr [])) eqn:Hb; [done|].
  intros [= <-]. by eapply spread_TypeError.
Qed.

Lemma snapshotFromLists_TypeError topicId latest hot e :
  snapshotFromLists topicId latest hot = Throw e -> exists msg, e = TypeError msg.
Proof.
  unfold snapshotFromLists.
  destruct (spread (latest ?? VArr [])) eqn:Ha;
    [|intros [= <-]; by eapply spread_TypeError].
  destruct (spread (hot ?? VArr [])) eqn:Hb; [done|].
  intros [= <-]. by eapply spread_TypeError.
Qed.

Ltac fails_step :=
  lazymatch goal with
  | |- fails_only _ (mbind _ _) => apply fails_only_bind; [|intros ?]
  | |- fails_only _ (try_catch _ _) => apply fails_only_try_catch; intros ?
  | |- fails_only _ (mret _) => apply fails_only_ret
  | |- fails_only _ (modify _) => apply fails_only_modify
  | |- fails_only _ get_world => apply fails_only_get_world
  | |- fails_only _ Date_now => apply fails_only_Date_now
  | |- fails_only _ now_toISOString => apply fails_only_now_toISOString
  | |- fails_only _ (writeJsonAtomic _ _ _) => apply fails_only_writeJsonAtomic
  | |- fails_only _ (ensureDirs _ _) => apply fails_only_ensureDirs
  | |- fails_only _ (lift _) =>
      apply fails_only_lift; intros ? ?; right;
      first [ by eapply spread_TypeError
            | by eapply member_TypeError
            | by eapply mergeTopicLists_TypeError
            | by eapply snapshotFromLists_TypeError ]
  end.

Lemma fails_only_readJson P file fallback :
  fails_only P (readJson outside file fallback).
Proof. unfold readJson, suspend. repeat fails_step. Qed.

(** The sync of a list never throws. *)
Lemma fails_only_fetchAndPersistList P name url filePath :
  fails_only P (fetchAndPersistList CONFIG outside name url filePath).
Proof.
  unfold fetchAndPersistList, update_report, console_error.
  apply fails_only_bind; [apply fails_only_readJson|]. intros fallback.
  repeat fails_step.
Qed.

Lemma fails_only_updateHotPool currentHot :
  fails_only (fatal outside) (updateHotPool CONFIG outside currentHot).
Proof.
  unfold updateHotPool.
  apply fails_only_bind; [apply fails_only_readJson|]. intros prevPool.
  repeat fails_step.
Qed.

Lemma fails_only_main_topic latest hot now ttlMs topicId :
  fails_only (fatal outside)
    (main_topic CONFIG outside latest hot now ttlMs topicId).
Proof.
  unfold main_topic, main_topic_catch, update_report, console_error.
  apply fails_only_bind; [apply fails_only_readJson|]. intros existingTopicDoc.
  apply fails_only_bind; [apply fails_only_readJson|].
  intros existingRepliesDoc.
  repeat fails_step.
Qed.

Lemma fails_only_main_topics latest hot now ttlMs candidates :
  fails_only (fatal outside)
    (main_topics CONFIG outside latest hot now ttlMs candidates).
Proof.
  unfold main_topics.
  induction candidates as [|topicId rest IH]; cbn [for_of]; [fails_step|].
  apply fails_only_bind; [apply fails_only_main_topic|]. intros _. exact IH.
Qed.


End Failure.

(** ** The pages of replies *)

Section ReplyPages.
Context {E : Engine} (CONFIG : Config) (outside : Outside).

(** A body that [fetchJsonWithRetry] returns is the answer to one of
    its requests. *)
Lemma fetchJsonWithRetry_Ok url authToken w body w' :
  fetchJsonWithRetry CONFIG outside url authToken w = (Ok body, w') ->
  exists n,
    issued_between w w' n /\ attemptResult outside url authToken n = Ok body.
Proof.
  unfold fetchJsonWithRetry. intros Hrun.
  destruct (fetchJsonWithRetry_loop_run CONFIG outside url authToken
              (retries CONFIG) 0 None w)
    as (w1 & res & f & new & Hloop & _ & _ & _ & Hreq & _ & _ & Hend).
  rewrite Hrun in Hloop. injection Hloop as <- <-.
  destruct Hend as [_ Hbody]. exists (requests w + f)%nat.
  split; [unfold issued_between; lia|done].
Qed.

Lemma fetchReplies_pages_run topicId token remaining :
  forall p all w res w',
    fetchReplies_pages CONFIG outside topicId token remaining p all w
      = (Ok res, w') ->
    (requests w <= requests w')%nat
    /\ exists pages : list (list value),
      res = all ++ concat pages
      /\ (length pages <= remaining)%nat
      /\ (forall i pg,
            pages !! i = Some pg ->
            pg <> []
            /\ ((S i < length pages)%nat -> (50 <= length pg)%nat)
            /\ exists n body,
                 issued_between w w' n
                 /\ attemptResult outside
                      (endpoints.v2Replies topicId (p + Z.of_nat i))
                      (Some token) n = Ok body
                 /\ replyItems body = pg)
      /\ (length pages = remaining
          \/ (exists pg, last pages = Some pg /\ (length pg < 50)%nat)
          \/ exists n body,
               issued_between w w' n
               /\ attemptResult outside
                    (endpoints.v2Replies topicId (p + Z.of_nat (length pages)))
                    (Some token) n = Ok body
               /\ replyItems body = []).
Proof.
  induction remaining as [|r IH]; intros p all w res w'; cbn [fetchReplies_pages].
  - intros [= <- <-]. split; [done|]. exists []. cbn. rewrite app_nil_r.
    split; [done|]. split; [done|]. split; [|by left].
    intros i pg Hl; by rewrite lookup_nil in Hl.
  - intros (page & w1 & Hfetch & Hrest)%bind_Ok_inv.
    apply fetchJsonWithRetry_Ok in Hfetch as (n & Hn & Hbody).
    cbv zeta in Hrest. fold (replyItems page) in Hrest.
    unfold issued_between in *.
    case_bool_decide as Hempty.
    + injection Hrest as <- <-. split; [lia|]. exists []. cbn.
      rewrite app_nil_r.
      split; [done|]. split; [lia|].
      split; [intros i pg Hl; by rewrite lookup_nil in Hl|].
      right. right. exists n, page. rewrite Z.add_0_r.
      split; [done|]. split; [done|]. by apply length_zero_iff_nil.
    + destruct (Z.of_nat (length (replyItems page)) <? 50) eqn:Hshort.
      * injection Hrest as <- <-. apply Z.ltb_lt in Hshort.
        split; [lia|]. exists [replyItems page]. cbn. rewrite app_nil_r.
        split; [done|]. split; [lia|]. split.
        { intros [|i] pg; [|intros Hl; cbn in Hl; first [discriminate|by rewrite lookup_nil in Hl]].
          intros [= <-]. split; [by intros Heq; rewrite Heq in Hempty|].
          split; [lia|].
          exists n, page. by rewrite Z.add_0_r. }
        right. left. exists (replyItems page). split; [done|lia].
      * apply Z.ltb_ge in Hshort.
        apply IH in Hrest
          as (Hmono & pages & -> & Hlen & Hpages & Hstop).
        split; [lia|]. exists (replyItems page :: pages). cbn [concat length].
        split; [by rewrite <- app_assoc|]. split; [lia|]. split.
        { intros [|i] pg; cbn [lookup list_lookup].
          - intros [= <-]. split; [by intros Heq; rewrite Heq in Hempty|].
            split; [lia|]. exists n, page. rewrite Z.add_0_r.
            split; [lia|done].
          - intros Hpg. destruct (Hpages i pg Hpg)
              as (Hne & Hfull & n' & body & Hn' & Hanswer & Hitems).
            split; [done|]. split; [intros ?; apply Hfull; lia|].
            exists n', body. split; [lia|]. split; [|done].
            by replace (p + Z.of_nat (S i)) with (p + 1 + Z.of_nat i) by lia. }
        destruct Hstop as [Hall|[(pg & Hlast & Hpg)|(n' & body & Hn' & Hb & Hi)]].
        -- left. lia.
        -- right. left. exists pg. split; [|done].
           destruct pages; [done|]. done.
        -- right. right. exists n', body. split; [lia|]. split; [|done].
           by replace (p + Z.of_nat (S (length pages)))
             with (p + 1 + Z.of_nat (length pages)) by lia.
Qed.

(** X13: what [fetchReplies] returns is an array.  Without a token it
    is the answer to a request for the replies of the topic, or the
    empty array when that answer is not an array.  With a token it is
    the concatenation of the items of the pages 1, 2, ... as they were
    answered: at most 50 pages, none of them empty, all but the last
    with 50 items or more, up to the first page with less than 50
    items, or before the first empty page, or through page 50. *)
Theorem fetchReplies_concat (topicId : JsNum) (w w' : World) (replies : value) :
  fetchReplies CONFIG outside topicId w = (Ok replies, w') ->
  Array_isArray replies = true
  /\ match authHeader (V2EX_TOKEN CONFIG) with
     | None =>
         exists n data,
           issued_between w w' n
           /\ attemptResult outside (endpoints.repliesByTopicId topicId) None n
              = Ok data
           /\ replies = (if Array_isArray data then data else VArr [])
     | Some token =>
         exists pages : list (list value),
           replies = VArr (concat pages)
           /\ (length pages <= 50)%nat
           /\ (forall i pg,
                 pages !! i = Some pg ->
                 pg <> []
                 /\ ((S i < length pages)%nat -> (50 <= length pg)%nat)
                 /\ exists n body,
                      issued_between w w' n
                      /\ attemptResult outside
                           (endpoints.v2Replies topicId (1 + Z.of_nat i))
                           (Some token) n = Ok body
                      /\ replyItems body = pg)
           /\ (length pages = 50%nat
               \/ (exists pg, last pages = Some pg /\ (length pg < 50)%nat)
               \/ exists n body,
                    issued_between w w' n
                    /\ attemptResult outside
                         (endpoints.v2Replies topicId
                            (1 + Z.of_nat (length pages)))
                         (Some token) n = Ok body
                    /\ replyItems body = [])
     end.
Proof.
  unfold fetchReplies. destruct (authHeader (V2EX_TOKEN CONFIG)) as [token|].
  - intros (all & w1 & Hpages & [= <- <-])%bind_Ok_inv.
    split; [done|].
    apply fetchReplies_pages_run in Hpages as (_ & pages & -> & Hrest).
    exists pages. split; [done|]. exact Hrest.
  - intros (data & w1 & Hfetch & [= <- <-])%bind_Ok_inv.
    split; [by destruct data|].
    apply fetchJsonWithRetry_Ok in Hfetch as (n & Hn & Hbody).
    by exists n, data.
Qed.

End ReplyPages.

(** ** The hot pool on disk *)

Section PoolStore.
Context {E : Engine} (CONFIG : Config) (outside : Outside).


End PoolStore.

(** ** The files the per-topic loop writes *)

Section TopicFiles.
Context {E : Engine} (CONFIG : Config) (outside : Outside).

Lemma keeps_lookup_files {A} (file : string) (m : M A) :
  keeps files m -> keeps (fun w => files w !! file) m.
Proof. intros Hm w. by rewrite Hm. Qed.

Lemma keeps_lookup_writeJsonAtomic file target data :
  file <> target -> file <> target +:+ ".tmp" ->
  keeps (fun w => files w !! file) (writeJsonAtomic outside target data).
Proof.
  intros Hne Htmp w. unfold writeJsonAtomic.
  destruct (disk outside (writes w) target) as [|e []]; cbn; [| |done];
    destruct data; cbn;
    by rewrite ?lookup_insert_ne, ?lookup_delete_ne by done.
Qed.

Lemma keeps_files_fetchTopic topicId :
  keeps files (fetchTopic CONFIG outside topicId).
Proof. unfold fetchTopic. frame. Qed.

Lemma keeps_files_fetchReplies_pages topicId token remaining :
  forall p all,
    keeps files (fetchReplies_pages CONFIG outside topicId token remaining p all).
Proof.
  induction remaining as [|r IH]; intros p all; cbn; [frame|].
  apply keeps_bind; [auto with frame|]. intros page.
  repeat case_match; frame; apply IH.
Qed.

Lemma keeps_files_fetchReplies topicId :
  keeps files (fetchReplies CONFIG outside topicId).
Proof.
  unfold fetchReplies. destruct (authHeader _).
  - apply keeps_bind; [apply keeps_files_fetchReplies_pages|]. intros all. frame.
  - frame.
Qed.

(** One iteration leaves every file alone but those of its topic. *)
Lemma keeps_lookup_main_topic latest hot now ttlMs topicId file :
  file ∉ topic_files topicId ->
  keeps (fun w => files w !! file)
    (main_topic CONFIG outside latest hot now ttlMs topicId).
Proof.
  unfold topic_files. cbv zeta.
  rewrite !not_elem_of_cons. intros (Ht & Httmp & Hr & Hrtmp & _).
  unfold main_topic, main_topic_try, main_topic_refresh, main_topic_replies,
    main_replies_fetch, main_topic_catch.
  repeat first
    [ apply keeps_lookup_writeJsonAtomic; assumption
    | apply keeps_lookup_files;
        first [ apply keeps_files_fetchTopic
              | apply keeps_files_fetchReplies
              | solve [eauto with frame] ]
    | frame_step ].
Qed.

(** X15: the per-topic loop writes no file but the topic document and
    the replies document of a candidate, and their temporary files:
    every other file (the lists, the hot pool, the state, the documents
    of the topics that are no candidates) holds after the loop what it
    held before, however the iterations end. *)
Theorem main_topics_files (latest hot : value) (now ttlMs : Z)
    (candidates : list JsNum) (file : string) (w : World) :
  (forall topicId, topicId ∈ candidates -> file ∉ topic_files topicId) ->
  files (main_topics CONFIG outside latest hot now ttlMs candidates w).2 !! file
  = files w !! file.
Proof.
  unfold main_topics. revert w.
  induction candidates as [|topicId rest IH]; intros w Hfile; [done|].
  cbn [for_of]. rewrite bind_run.
  pose proof (keeps_lookup_main_topic latest hot now ttlMs topicId file) as Hone.
  specialize (Hone (Hfile topicId ltac:(left)) w). cbn beta in Hone.
  destruct (main_topic CONFIG outside latest hot now ttlMs topicId w)
    as [[[]|e] w1]; cbn [snd] in *; [|done].
  rewrite IH; [done|]. intros id Hin. apply Hfile. by right.
Qed.

End TopicFiles.

(** ** The further properties at concrete inputs *)

#[local] Existing Instance Reference.engine.

Lemma hotPool_freshest_first_witness :
  exists merged pool dropped,
    mergeTopicLists
      (VArr [Example.touched40; Example.touched10]) (VArr []) = Ok merged
    /\ hotPoolNext CONFIG_default Example.now
         (VArr [Example.touched40; Example.touched10]) (VArr []) = Ok pool
    /\ freshest_first merged
    /\ freshest_first pool
    /\ hotPoolPruned CONFIG_default Example.now merged = pool ++ dropped
    /\ (forall kept gone,
          kept ∈ pool -> gone ∈ dropped ->
          js_ge (topicFreshness kept) (topicFreshness gone) = true).
Proof.
  assert (H0 : forall item,
             item ∈ [Example.touched40; Example.touched10] ++ [] ->
             isFinite (topicFreshness item) = true).
  { intros item Hin. cbn [app] in Hin.
    apply elem_of_cons in Hin as [->|Hin]; [vm_compute; reflexivity|].
    apply elem_of_cons in Hin as [->|Hin]; [vm_compute; reflexivity|].
    by apply elem_of_nil in Hin. }
  exact (hotPool_freshest_first CONFIG_default
           Example.now [Example.touched40; Example.touched10] []
           Reference_sorts_by_key H0).
Defined.


Lemma fetchAndPersistList_persists_witness :
  exists w',
    fetchAndPersistList CONFIG_default
      (Reference.steady FirstRun.answer) "latest" endpoints.latest
      Example.latest_file (Reference.world0 Example.now ∅)
      = (Ok (VArr [FirstRun.topic1]), w')
    /\ files w' !! Example.latest_file
         = Some (reparse (VArr [FirstRun.topic1]))
    /\ lists (report w') !! "latest"%string =
         Some {| status := "fetched";
                 count := lengthIfArray (VArr [FirstRun.topic1]);
                 source := endpoints.latest; list_error := None |}.
Proof.
  assert (H0 : fetchJsonWithRetry CONFIG_default
                 (Reference.steady FirstRun.answer) endpoints.latest None
                 (readJson (Reference.steady FirstRun.answer)
                    Example.latest_file (VArr [])
                    (Reference.world0 Example.now ∅)).2
               = (Ok (VArr [FirstRun.topic1]), Cases.latest_fetched.2))
    by (vm_compute; reflexivity).
  exact (fetchAndPersistList_persists CONFIG_default
           (Reference.steady FirstRun.answer) "latest" endpoints.latest
           Example.latest_file (Reference.world0 Example.now ∅)
           Cases.latest_fetched.2 (VArr [FirstRun.topic1]) H0).
Defined.

Lemma empty_topic_payload_fails_witness :
  exists w',
    try_catch
      (main_topic_try CONFIG_default Cases.hollow
         (Num 7) "data/topics/7.json" "data/replies/7.json" VNull VNull
         Example.snapshot5 true)
      (main_topic_catch (Num 7)) Example.empty = (Ok tt, w')
    /\ failures w'
         = failures Example.empty
             ++ [{| topic_id := Num 7;
                    error := "Empty topic payload for "
                               +:+ Number_toString (Num 7) |}]
    /\ files w' = files Example.empty
    /\ requests w' = requests Cases.topic7_fetched.2
    /\ refreshed (report w') = refreshed (report Example.empty)
    /\ skipped (report w') = skipped (report Example.empty).
Proof.
  assert (H0 : fetchJsonWithRetry CONFIG_default
                 Cases.hollow (endpoints.topicById (Num 7)) None Example.empty
               = (Ok (VArr []), Cases.topic7_fetched.2))
    by (vm_compute; reflexivity).
  assert (H1 : forall first rest,
             VArr [] = VArr (first :: rest) -> ToBoolean first = false)
    by (intros first rest Heq; discriminate Heq).
  exact (empty_topic_payload_fails CONFIG_default
           Cases.hollow (Num 7) "data/topics/7.json" "data/replies/7.json"
           VNull VNull Example.snapshot5 Example.empty Cases.topic7_fetched.2
           (VArr []) H0 H1).
Defined.

Lemma main_topics_accounting_witness :
  exists w' newFailed,
    main_topics CONFIG_default Example.failing
      (VArr [Example.touched10]) VNull Example.now (24 * 60 * 60 * 1000)
      [Num 2] Example.stored = (Ok tt, w')
    /\ report_header (report w') = report_header (report Example.stored)
    /\ refreshed (report Example.stored) <= refreshed (report w')
    /\ skipped (report Example.stored) <= skipped (report w')
    /\ failures w' = failures Example.stored ++ newFailed
    /\ handled w' - handled Example.stored <= Z.of_nat (length [Num 2])
    /\ Z.of_nat (length [Num 2])
         <= handled w' - handled Example.stored + Z.of_nat (length newFailed)
    /\ (length newFailed <= length [Num 2])%nat.
Proof.
  exact (proj2
    (main_topics_accounting CONFIG_default
       Example.failing (VArr [Example.touched10]) VNull Example.now
       (24 * 60 * 60 * 1000) [Example.touched10] [] eq_refl eq_refl)
    [Num 2] Example.stored).
Defined.

Lemma main_outcome_witness :
  exists ids state,
    NoDup ids
    /\ files FirstRun.run.2 !! STATE_FILE = Some state
    /\ state?."candidate_topic_ids" = VArr (VNum <$> ids)
    /\ candidates (report FirstRun.run.2) = Z.of_nat (length ids)
    /\ refreshed (report FirstRun.run.2) + skipped (report FirstRun.run.2)
       <= candidates (report FirstRun.run.2).
Proof.
  assert (H0 : main CONFIG_default
                 (Reference.steady FirstRun.answer)
                 (Reference.world0 Example.now ∅)
               = (Ok tt, FirstRun.run.2)) by (vm_compute; reflexivity).
  destruct (main_outcome CONFIG_default
              (Reference.steady FirstRun.answer)
              (Reference.world0 Example.now ∅) FirstRun.run.2 H0)
    as (ids & state & Hnodup & _ & _ & Hstate & Hids & _ & _ & _ & _ & _
        & Hcands & _ & _ & Hle & _).
  exists ids, state. repeat split; assumption.
Defined.

Lemma fetchReplies_concat_witness :
  Array_isArray (VArr (replicate 51 (VObj []))) = true
  /\ match authHeader (V2EX_TOKEN Cases.CONFIG_token) with
     | None =>
         exists n data,
           issued_between (Reference.world0 Example.now ∅) Cases.replies1.2 n
           /\ attemptResult Cases.paged (endpoints.repliesByTopicId (Num 1))
                None n = Ok data
           /\ VArr (replicate 51 (VObj []))
              = (if Array_isArray data then data else VArr [])
     | Some token =>
         exists pages : list (list value),
           VArr (replicate 51 (VObj [])) = VArr (concat pages)
           /\ (length pages <= 50)%nat
           /\ (forall i pg,
                 pages !! i = Some pg ->
                 pg <> []
                 /\ ((S i < length pages)%nat -> (50 <= length pg)%nat)
                 /\ exists n body,
                      issued_between (Reference.world0 Example.now ∅)
                        Cases.replies1.2 n
                      /\ attemptResult Cases.paged
                           (endpoints.v2Replies (Num 1) (1 + Z.of_nat i))
                           (Some token) n = Ok body
                      /\ replyItems body = pg)
           /\ (length pages = 50%nat
               \/ (exists pg, last pages = Some pg /\ (length pg < 50)%nat)
               \/ exists n body,
                    issued_between (Reference.world0 Example.now ∅)
                      Cases.replies1.2 n
                    /\ attemptResult Cases.paged
                         (endpoints.v2Replies (Num 1)
                            (1 + Z.of_nat (length pages)))
                         (Some token) n = Ok body
                    /\ replyItems body = [])
     end.
Proof.
  assert (H0 : fetchReplies Cases.CONFIG_token
                 Cases.paged (Num 1) (Reference.world0 Example.now ∅)
               = (Ok (VArr (replicate 51 (VObj []))), Cases.replies1.2))
    by (vm_compute; reflexivity).
  exact (fetchReplies_concat Cases.CONFIG_token
           Cases.paged (Num 1) (Reference.world0 Example.now ∅)
           Cases.replies1.2 (VArr (replicate 51 (VObj []))) H0).
Defined.

Lemma main_topics_files_witness :
  files (main_topics CONFIG_default Example.failing (VArr [Example.touched10])
           VNull Example.now (24 * 60 * 60 * 1000) [Num 2] Example.stored).2
    !! Example.latest_file
  = files Example.stored !! Example.latest_file.
Proof.
  assert (H0 : forall topicId,
             topicId ∈ [Num 2] -> Example.latest_file ∉ topic_files topicId).
  { intros topicId Hin. apply list_elem_of_singleton in Hin. subst topicId.
    apply (bool_decide_unpack _). vm_compute. exact I. }
  exact (main_topics_files CONFIG_default Example.failing
           (VArr [Example.touched10]) VNull Example.now (24 * 60 * 60 * 1000)
           [Num 2] Example.latest_file Example.stored H0).
Defined.
